(** * CSV import pipeline for GitHub issues: a shallow embedding

    The development follows the five modules of the repository:
    [csv_handler.py] (reading and format validation), [validators.py]
    (reconciliation against the remote service), [github_client.py] (the
    client on top of an HTTP transport), [issue_mapper.py] (row to issue
    payload, label enrichment) and [cli.py] (the three stages and the
    [import] command).

    Conventions of the embedding.
    - A Python [str] is a [string]; its characters are the code points
      below 256.
    - A CSV row is the [dict] that [csv.DictReader] yields: a finite map
      from column names to values.  A value is a [str], or [None] for the
      cells that a short line leaves out ([restval]).  The overflow entry
      that [DictReader] stores for a line longer than the header is not
      represented.
    - A Python exception is a [Raise] carrying the text of [str(e)].
    - The remote service is reached only through [requests.get] and
      [requests.post]; both are operations of an abstract transport acting
      on an abstract world, and every request is also appended to a call
      log. *)

From Stdlib Require Import Ascii String.
From stdpp Require Import gmap strings list fin_maps sorting pretty.

Open Scope string_scope.
Open Scope list_scope.

(** ** Python values and strings *)

Inductive pyval :=
| PNone
| PStr (s : string).

#[export] Instance pyval_eq_dec : EqDecision pyval.
Proof. solve_decision. Defined.

(** Truth value of a cell: [None] and the empty string are falsy. *)
Definition truthy (v : pyval) : bool :=
  match v with
  | PNone => false
  | PStr s => negb (String.eqb s "")
  end.

(** [str(v)] as an f-string renders it. *)
Definition py_str (v : pyval) : string :=
  match v with
  | PNone => "None"
  | PStr s => s
  end.

(** [str.isspace] on the code points below 256. *)
Definition isspace (c : ascii) : bool :=
  let n := nat_of_ascii c in
  (Nat.leb 9 n && Nat.leb n 13) || (Nat.leb 28 n && Nat.leb n 32)
  || Nat.eqb n 133 || Nat.eqb n 160.

Fixpoint lstrip (s : string) : string :=
  match s with
  | EmptyString => EmptyString
  | String c s' => if isspace c then lstrip s' else s
  end.

Fixpoint rstrip (s : string) : string :=
  match s with
  | EmptyString => EmptyString
  | String c s' =>
      match rstrip s' with
      | EmptyString => if isspace c then EmptyString else String c EmptyString
      | r => String c r
      end
  end.

(** [s.strip()] *)
Definition strip (s : string) : string := rstrip (lstrip s).

(** [s.split(sep)] for a one-character separator: never empty. *)
Fixpoint split (sep : ascii) (s : string) : list string :=
  match s with
  | EmptyString => [EmptyString]
  | String c s' =>
      if Ascii.eqb c sep then EmptyString :: split sep s'
      else match split sep s' with
           | h :: t => String c h :: t
           | [] => [String c EmptyString]
           end
  end.

(** [sep.join(l)] *)
Fixpoint join (sep : string) (l : list string) : string :=
  match l with
  | [] => ""
  | [x] => x
  | x :: rest => x +:+ sep +:+ join sep rest
  end.

(** [str.lower] on the code points below 256. *)
Definition lower_char (c : ascii) : ascii :=
  let n := nat_of_ascii c in
  if (Nat.leb 65 n && Nat.leb n 90)
     || (Nat.leb 192 n && Nat.leb n 222 && negb (Nat.eqb n 215))
  then ascii_of_nat (n + 32) else c.

Fixpoint lower (s : string) : string :=
  match s with
  | EmptyString => EmptyString
  | String c s' => String (lower_char c) (lower s')
  end.

Definition nonempty (s : string) : bool := negb (String.eqb s "").

(** ** Exceptions *)

Inductive result (A : Type) :=
| Ok (a : A)
| Raise (e : string).
Arguments Ok {A} a.
Arguments Raise {A} e.

#[export] Instance result_bind : MBind result := λ A B k r,
  match r with
  | Ok a => k a
  | Raise e => Raise e
  end.

(** [v.strip()]: only a [str] has the method. *)
Definition py_strip (v : pyval) : result string :=
  match v with
  | PStr s => Ok (strip s)
  | PNone => Raise "'NoneType' object has no attribute 'strip'"
  end.

(** ** Rows *)

Abbreviation row := (gmap string pyval).

(** [row.get(key, default)] *)
Definition get_or (r : row) (key : string) (default : pyval) : pyval :=
  match r !! key with
  | Some v => v
  | None => default
  end.

(** [row.get(key)] *)
Definition get (r : row) (key : string) : pyval := get_or r key PNone.

(** [any(row.values())] *)
Definition any_value (r : row) : bool :=
  bool_decide (map_Exists (λ _ v, truthy v = true) r).

(** A row every value of which is a string: the declared [Dict[str, str]]. *)
Definition str_row (r : row) : Prop :=
  map_Forall (λ _ v, v ≠ PNone) r.

(** ** Findings *)

Record finding := Finding {
  f_row : nat;
  f_field : string;
  f_message : string;
  f_severity : option string
}.

#[export] Instance finding_eq_dec : EqDecision finding.
Proof. solve_decision. Defined.

(** ** csv_handler.py *)

Module CSVHandler.

Definition REQUIRED_COLUMNS : list string :=
  ["Title"; "Description"; "Type"; "Labels"; "Assignee"; "Milestone"].

(** What opening the file and iterating [csv.DictReader] over it delivers:
    either nothing (opening the file or reading its header raises), or the
    header, the rows yielded, and then the end of the file or an exception
    raised by the reader. *)
Inductive csv_source :=
| Unreadable (e : string)
| Reader (fieldnames : list string) (records : list row)
         (failure : option string).

(** [template_columns or REQUIRED_COLUMNS] of the constructor. *)
Definition init (template_columns : option (list string)) : list string :=
  match template_columns with
  | Some (c :: cs) => c :: cs
  | _ => REQUIRED_COLUMNS
  end.

(** [self.template_columns - set(reader.fieldnames)].  Python iterates the
    difference in an unspecified order; the template's order is used here. *)
Definition missing_cols (template fieldnames : list string) : list string :=
  filter (λ c, c ∉ fieldnames) template.

Definition no_columns : finding :=
  Finding 0 "headers" "No columns found" None.

Definition missing_columns (cols : list string) : finding :=
  Finding 0 "headers" ("Missing required columns: " +:+ join ", " cols) None.

Definition read_failed (e : string) : finding :=
  Finding 0 "file" ("Failed to read file: " +:+ e) None.

Definition read_csv (template_columns : list string) (src : csv_source)
  : list row * list finding :=
  match src with
  | Unreadable e => ([], [read_failed e])
  | Reader [] _ _ => ([], [no_columns])
  | Reader fieldnames records failure =>
      let missing := missing_cols template_columns fieldnames in
      let errors :=
        match missing with
        | [] => []
        | _ => [missing_columns missing]
        end in
      let rows := filter (λ r, any_value r = true) records in
      (rows,
       errors ++ match failure with
                 | Some e => [read_failed e]
                 | None => []
                 end)
  end.

Definition title_required (row_num : nat) : finding :=
  Finding row_num "Title" "Title is required" None.

Definition bad_type (row_num : nat) (v : pyval) : finding :=
  Finding row_num "Type"
    ("Type must be 'Epic' or 'Task', got '" +:+ py_str v +:+ "'") None.

(** [row.get('Type') not in {'Epic', 'Task'}] *)
Definition type_ok (v : pyval) : bool :=
  bool_decide (v = PStr "Epic" ∨ v = PStr "Task").

(** The findings of one row; [.strip()] on the title may raise. *)
Definition check_row (row_num : nat) (r : row) : result (list finding) :=
  title ← py_strip (get_or r "Title" (PStr ""));
  Ok ((if nonempty title then [] else [title_required row_num])
      ++ (if type_ok (get r "Type") then []
          else [bad_type row_num (get r "Type")])).

(** [for row_num, row in enumerate(rows, start)] *)
Fixpoint validate_format_from (row_num : nat) (rows : list row)
  : result (list finding) :=
  match rows with
  | [] => Ok []
  | r :: rest =>
      here ← check_row row_num r;
      later ← validate_format_from (S row_num) rest;
      Ok (here ++ later)
  end.

Definition validate_format (rows : list row) : result (list finding) :=
  validate_format_from 2 rows.

End CSVHandler.

(** ** The remote service behind [requests] *)

(** A JSON object as [response.json()] returns it; the empty object is
    falsy. *)
Abbreviation pydict := (gmap string string).

Definition dict_truthy (d : option pydict) : bool :=
  match d with
  | Some m => bool_decide (m ≠ ∅)
  | None => false
  end.

(** The [json=] argument of the two POST requests. *)
Inductive payload :=
| IssuePayload (title body : string) (labels : list string)
               (assignee milestone : option string)
| LabelPayload (name color description : string).

(** [requests.get(..)] / [requests.post(..)], then [raise_for_status()] and
    [json()]: any of the three may raise, otherwise a body is delivered. *)
Inductive response :=
| HttpError (e : string)
| HttpJson (body : pydict).

Class Transport (World : Type) := {
  requests_get : string → World → response * World;
  requests_post : string → payload → World → response * World
}.

Inductive call :=
| Get (url : string) (r : response)
| Post (url : string) (p : payload) (r : response).

(** The world behind the transport and the requests made so far. *)
Record remote (World : Type) := Remote {
  world : World;
  calls : list call
}.
Arguments Remote {World} world calls.
Arguments world {World} r.
Arguments calls {World} r.

(** Computations that talk to the remote service and may raise. *)
Definition M (World A : Type) : Type :=
  remote World → result A * remote World.

Definition ret {World A} (a : A) : M World A := λ st, (Ok a, st).

#[export] Instance remote_bind {World} : MBind (M World) := λ A B k m st,
  match m st with
  | (Ok a, st') => k a st'
  | (Raise e, st') => (Raise e, st')
  end.

(** [try: m  except Exception as e: h(str(e))] *)
Definition catch {World A} (m : M World A) (h : string → M World A)
  : M World A :=
  λ st, match m st with
        | (Ok a, st') => (Ok a, st')
        | (Raise e, st') => h e st'
        end.

Definition lift {World A} (r : result A) : M World A := λ st, (r, st).


(** ** github_client.py *)

Module GitHubClient.

(** The per-process constants of the client; the request headers are the
    same on every request and are left to the transport. *)
Record t := Client {
  API_BASE_URL : string;
  ORG : string
}.

Section Client.
Context {World : Type} {T : Transport World} (self : t).

Definition http_get (url : string) : M World response :=
  λ st, let '(r, w) := requests_get url (world st) in
        (Ok r, Remote w (calls st ++ [Get url r])).

Definition http_post (url : string) (p : payload) : M World response :=
  λ st, let '(r, w) := requests_post url p (world st) in
        (Ok r, Remote w (calls st ++ [Post url p r])).

(** [try: .. return response.json()  except Exception: return None] *)
Definition json_or_none (r : response) : option pydict :=
  match r with
  | HttpJson body => Some body
  | HttpError _ => None
  end.

Definition issues_url (repo : pyval) : string :=
  API_BASE_URL self +:+ "/repos/" +:+ ORG self +:+ "/" +:+ py_str repo
  +:+ "/issues".

Definition user_url (username : string) : string :=
  API_BASE_URL self +:+ "/users/" +:+ username.

Definition label_url (repo : pyval) (label_name : string) : string :=
  API_BASE_URL self +:+ "/repos/" +:+ ORG self +:+ "/" +:+ py_str repo
  +:+ "/labels/" +:+ label_name.

Definition labels_url (repo : pyval) : string :=
  API_BASE_URL self +:+ "/repos/" +:+ ORG self +:+ "/" +:+ py_str repo
  +:+ "/labels".

Definition create_issue (repo : pyval) (title body : string)
    (labels : list string) (assignee milestone : option string)
  : M World (option pydict) :=
  r ← http_post (issues_url repo)
         (IssuePayload title body labels assignee milestone);
   ret (json_or_none r).

Definition get_user (username : string) : M World (option pydict) :=
  r ← http_get (user_url username); ret (json_or_none r).

Definition get_label (repo : pyval) (label_name : string)
  : M World (option pydict) :=
  r ← http_get (label_url repo label_name); ret (json_or_none r).

(** Called with the default colour and description only. *)
Definition create_label (repo : pyval) (name : string)
  : M World (option pydict) :=
  r ← http_post (labels_url repo) (LabelPayload name "cccccc" "");
   ret (json_or_none r).

End Client.
End GitHubClient.

(** ** validators.py *)

Module GitHubValidator.
Section Validator.
Context {World : Type} {T : Transport World} (client : GitHubClient.t).

Definition user_not_found (row_num : nat) (assignee : string) : finding :=
  Finding row_num "Assignee"
    ("User '" +:+ assignee +:+ "' not found in GitHub") (Some "warn").

Definition user_check_failed (row_num : nat) (assignee e : string)
  : finding :=
  Finding row_num "Assignee"
    ("Failed to validate user '" +:+ assignee +:+ "': " +:+ e)
    (Some "warn").

(** The lookup of one assignee, inside its [try]. *)
Definition check_assignee (row_num : nat) (assignee : string)
  : M World (list finding) :=
  catch
    (user ← GitHubClient.get_user client assignee;
     ret (if dict_truthy user then []
          else [user_not_found row_num assignee]))
    (λ e, ret [user_check_failed row_num assignee e]).

Fixpoint validate_assignees_from (row_num : nat) (rows : list row)
  : M World (list finding) :=
  match rows with
  | [] => ret []
  | r :: rest =>
      assignee ← lift (py_strip (get_or r "Assignee" (PStr "")));
      here ← (if nonempty assignee then check_assignee row_num assignee
              else ret []);
      later ← validate_assignees_from (S row_num) rest;
      ret (here ++ later)
  end.

Definition validate_assignees (rows : list row) : M World (list finding) :=
  validate_assignees_from 2 rows.

Definition label_not_found (row_num : nat) (label : string) (repo : pyval)
  : finding :=
  Finding row_num "Labels"
    ("Label '" +:+ label +:+ "' not found in " +:+ py_str repo
     +:+ ", will create") (Some "info").

Definition label_check_failed (row_num : nat) (label e : string) : finding :=
  Finding row_num "Labels"
    ("Failed to validate label '" +:+ label +:+ "': " +:+ e) (Some "warn").

(** The lookup of one label, inside its [try]. *)
Definition check_label (row_num : nat) (repo : pyval) (label : string)
  : M World (list finding) :=
  catch
    (label_obj ← GitHubClient.get_label client repo label;
     ret (if dict_truthy label_obj then []
          else [label_not_found row_num label repo]))
    (λ e, ret [label_check_failed row_num label e]).

(** The inner loop over the labels of one row. *)
Fixpoint check_labels (row_num : nat) (repo : pyval) (labels : list string)
  : M World (list finding) :=
  match labels with
  | [] => ret []
  | label :: rest =>
      here ← check_label row_num repo label;
      later ← check_labels row_num repo rest;
      ret (here ++ later)
  end.

Fixpoint validate_labels_from (row_num : nat) (rows : list row)
    (repo : pyval) : M World (list finding) :=
  match rows with
  | [] => ret []
  | r :: rest =>
      labels_str ← lift (py_strip (get_or r "Labels" (PStr "")));
      here ← (if nonempty labels_str
              then check_labels row_num repo
                     (strip <$> split ";" labels_str)
              else ret []);
      later ← validate_labels_from (S row_num) rest repo;
      ret (here ++ later)
  end.

Definition validate_labels (rows : list row) (repo : pyval)
  : M World (list finding) :=
  validate_labels_from 2 rows repo.

End Validator.
End GitHubValidator.

(** ** issue_mapper.py *)

(** [list(set(labels))]: Python fixes neither the order in which a set is
    iterated nor which of two equal elements is kept; any duplicate-free
    list with the same elements is a possible result. *)
Class SetOrder := {
  list_of_set : list string → list string;
  list_of_set_NoDup : ∀ l, NoDup (list_of_set l);
  list_of_set_elem_of : ∀ l x, x ∈ list_of_set l ↔ x ∈ l
}.

Module IssueMapper.

Record issue := Issue {
  title : string;
  body : string;
  labels : list string;
  assignee : option string;
  milestone : option string;
  type : pyval;
  repository : pyval
}.

(** [s or None] *)
Definition or_none (s : string) : option string :=
  if nonempty s then Some s else None.

Definition _parse_labels (labels_str : pyval) : list string :=
  match labels_str with
  | PStr s =>
      if nonempty s
      then filter (λ l, nonempty l = true) (strip <$> split ";" s)
      else []
  | PNone => []
  end.

Definition PROJECT_LABEL : string := "ask-myuni".

Definition map_row_to_issue {O : SetOrder} (r : row) (repo : pyval)
  : result issue :=
  let labels := _parse_labels (get_or r "Labels" (PStr "")) in
  let labels := labels ++ [PROJECT_LABEL] in
  title ← py_strip (get_or r "Title" (PStr ""));
  body ← py_strip (get_or r "Description" (PStr ""));
  assignee ← py_strip (get_or r "Assignee" (PStr ""));
  milestone ← py_strip (get_or r "Milestone" (PStr ""));
  Ok (Issue title body (list_of_set labels) (or_none assignee)
        (or_none milestone) (get_or r "Type" (PStr "Task")) repo).

Section Enrich.
Context {World : Type} {T : Transport World} (client : GitHubClient.t).

(** The loop over [issue.get('labels', [])], appending to
    [enriched_labels]. *)
Fixpoint enrich_labels (repo : pyval) (todo enriched_labels : list string)
  : M World (list string) :=
  match todo with
  | [] => ret enriched_labels
  | label :: rest =>
      label_obj ← GitHubClient.get_label client repo label;
      _ ← (if dict_truthy label_obj then ret None
           else GitHubClient.create_label client repo label);
      enrich_labels repo rest (enriched_labels ++ [label])
  end.

Definition enrich_with_github_metadata (i : issue) : M World issue :=
  enriched_labels ← enrich_labels (repository i) (labels i) [];
  ret (Issue (title i) (body i) enriched_labels (assignee i) (milestone i)
         (type i) (repository i)).

End Enrich.
End IssueMapper.

(** ** cli.py *)

Module ImportPipeline.

(** [repository_rules] of the configuration file; an absent entry is
    [None]. *)
Record config := Config {
  primary : pyval;
  secondary : pyval;
  default : pyval
}.

Record t := Pipeline {
  repository_rules : config;
  github_client : GitHubClient.t
}.

(** The dict that [validate] builds and [enrich] extends. *)
Record stage_result := StageResult {
  valid : bool;
  rows_count : nat;
  errors : list finding;
  warnings : list finding;
  data : list row
}.

Record import_error := ImportError {
  row_title : pyval;
  message : string
}.

(** The dict that [import_to_github] builds. *)
Record import_result := ImportResult {
  import_valid : bool;
  created_issues : list pydict;
  import_errors : list import_error;
  total_created : nat
}.

(** Stage 1.  The pipeline's handler is [CSVHandler()], with the default
    columns. *)
Definition validate (src : CSVHandler.csv_source) : result stage_result :=
  let '(rows, errors) := CSVHandler.read_csv (CSVHandler.init None) src in
  format_errors ← CSVHandler.validate_format rows;
  let errors := errors ++ format_errors in
  Ok (StageResult (bool_decide (length errors = 0)) (length rows) errors []
        rows).

Section Stages.
Context {World : Type} {T : Transport World} {O : SetOrder} (self : t).

(** The label pass of stage 2 over the configured repositories. *)
Fixpoint validate_label_repos (rows : list row) (repos : list pyval)
  : M World (list finding) :=
  match repos with
  | [] => ret []
  | repo :: rest =>
      here ← (if truthy repo
              then GitHubValidator.validate_labels (github_client self)
                     rows repo
              else ret []);
      later ← validate_label_repos rows rest;
      ret (here ++ later)
  end.

(** Stage 2. *)
Definition enrich (validation_result : stage_result) : M World stage_result :=
  if negb (valid validation_result) then ret validation_result
  else
    let rows := data validation_result in
    assignees ← GitHubValidator.validate_assignees (github_client self) rows;
    labels ← validate_label_repos rows
               [primary (repository_rules self);
                secondary (repository_rules self)];
    ret (StageResult (valid validation_result) (rows_count validation_result)
           (errors validation_result)
           (warnings validation_result ++ assignees ++ labels)
           (data validation_result)).

(** [row.get('Repository') or ..get('default')] *)
Definition resolve_repository (r : row) : pyval :=
  if truthy (get r "Repository") then get r "Repository"
  else default (repository_rules self).

(** The body of the [try] of stage 3 for one row: the issue that the remote
    service returned, if any.  Only the mapping can raise, and it runs
    before anything is appended to the two lists. *)
Definition create_row (r : row) : M World (option pydict) :=
  let repo := resolve_repository r in
  i ← lift (IssueMapper.map_row_to_issue r repo);
  i ← IssueMapper.enrich_with_github_metadata (github_client self) i;
  GitHubClient.create_issue (github_client self) repo
    (IssueMapper.title i) (IssueMapper.body i) (IssueMapper.labels i)
    (IssueMapper.assignee i) (IssueMapper.milestone i).

Definition create_failed (r : row) : import_error :=
  ImportError (get r "Title") "Failed to create issue".

(** One iteration of the loop of stage 3 on the two lists. *)
Definition import_row (r : row)
    (acc : list pydict * list import_error)
  : M World (list pydict * list import_error) :=
  let '(created_issues, errors) := acc in
  catch
    (created ← create_row r;
     ret (match created with
          | Some c =>
              if dict_truthy created then (created_issues ++ [c], errors)
              else (created_issues, errors ++ [create_failed r])
          | None => (created_issues, errors ++ [create_failed r])
          end))
    (λ e, ret (created_issues, errors ++ [ImportError (get r "Title") e])).

Fixpoint import_rows (rows : list row)
    (acc : list pydict * list import_error)
  : M World (list pydict * list import_error) :=
  match rows with
  | [] => ret acc
  | r :: rest => acc ← import_row r acc; import_rows rest acc
  end.

(** Stage 3: the result it was given when that is invalid, its own result
    otherwise. *)
Definition import_to_github (enrichment_result : stage_result)
  : M World (stage_result + import_result) :=
  if negb (valid enrichment_result) then ret (inl enrichment_result)
  else
    '(created_issues, errors) ← import_rows (data enrichment_result) ([], []);
    ret (inr (ImportResult (bool_decide (length errors = 0)) created_issues
                errors (length created_issues))).

(** The [import] command of [main]: the exit status of the process.
    [response] is what [input()] delivers at the prompt: the line typed,
    or the exception it raises (an [EOFError] when the standard input is
    closed).  [sys.exit(n)] ends with status [n], the end of [main] with
    status 0, an exception that nothing catches with status 1. *)
Definition main_import (src : CSVHandler.csv_source) (confirm : bool)
    (response : result string) : remote World → nat * remote World :=
  λ st,
    match validate src with
    | Raise _ => (1, st)
    | Ok validate_result =>
        if negb (valid validate_result) then (1, st)
        else
          match enrich validate_result st with
          | (Raise _, st) => (1, st)
          | (Ok enrich_result, st) =>
              let commit :=
                match import_to_github enrich_result st with
                | (Raise _, st) => (1, st)
                | (Ok _, st) => (0, st)
                end in
              if confirm then commit
              else
                match response with
                | Raise _ => (1, st)
                | Ok answer =>
                    if negb (String.eqb (lower answer) "yes") then (0, st)
                    else commit
                end
          end
    end.

End Stages.
End ImportPipeline.

(** ** The vocabulary of the specification *)

Module Spec.
Import CSVHandler ImportPipeline.

(** The batch of a file: the rows that [read_csv] returns to the pipeline. *)
Definition batch_of (src : csv_source) : list row :=
  (read_csv (init None) src).1.

(** The findings that [read_csv] returns to the pipeline. *)
Definition read_findings (src : csv_source) : list finding :=
  (read_csv (init None) src).2.

(** A row whose values are all empty. *)
Definition all_empty (r : row) : Prop :=
  map_Forall (λ _ v, truthy v = false) r.

(** Title non-empty after trimming. *)
Definition title_ok (r : row) : bool :=
  match r !! "Title" with
  | Some (PStr t) => nonempty (strip t)
  | _ => false
  end.

(** Title non-empty after trimming, and Type exactly Epic or Task. *)
Definition row_ok (r : row) : bool :=
  title_ok r && type_ok (get r "Type").

(** What the format check reports for one row, and for a batch numbered
    from [start]. *)
Definition row_findings (row_num : nat) (r : row) : list finding :=
  (if title_ok r then [] else [title_required row_num])
  ++ (if type_ok (get r "Type") then []
      else [bad_type row_num (get r "Type")]).

Fixpoint batch_findings (start : nat) (rows : list row) : list finding :=
  match rows with
  | [] => []
  | r :: rest => row_findings start r ++ batch_findings (S start) rest
  end.

(** The header findings of a stage result: those of row 0. *)
Definition row0 (fs : list finding) : list finding :=
  filter (λ f, f_row f = 0) fs.

(** The findings of a stage result with the severity the specification
    gives them: what is listed under [errors] blocks the stage and is an
    error; what is listed under [warnings] carries its own severity. *)
Definition findings (res : stage_result) : list (finding * string) :=
  ((λ f, (f, "error")) <$> errors res)
  ++ ((λ f, (f, from_option id "warn" (f_severity f))) <$> warnings res).

Definition source_records (src : csv_source) : list row :=
  match src with
  | Unreadable _ => []
  | Reader _ records _ => records
  end.

(** The [Labels] field of a record; an absent field reads as empty. *)
Definition labels_field (r : row) : string :=
  match r !! "Labels" with
  | Some (PStr s) => s
  | _ => ""
  end.

(** The labels of a record as the specification words them: split on [;],
    trim each part, drop the empty parts. *)
Definition label_parts (labels_field : string) : list string :=
  filter (λ l, l ≠ "") (strip <$> split ";" labels_field).

(** The per-row outcome of the commit stage. *)
Inductive outcome :=
| Created (c : pydict)
| Failed (e : import_error).

Definition createds (outs : list outcome) : list pydict :=
  omap (λ o, match o with Created c => Some c | Failed _ => None end) outs.

Definition faileds (outs : list outcome) : list import_error :=
  omap (λ o, match o with Failed e => Some e | Created _ => None end) outs.

Section Commit.
Context {World : Type} {T : Transport World} {O : SetOrder} (self : t).

(** What one row comes to: the issue the remote service returned, or the
    row's title with the reason of the failure. *)
Definition row_outcome (r : row) : M World outcome :=
  catch
    (created ← create_row self r;
     ret (match created with
          | Some c => if dict_truthy created then Created c
                      else Failed (create_failed r)
          | None => Failed (create_failed r)
          end))
    (λ e, ret (Failed (ImportError (get r "Title") e))).

(** The rows in their order, each in the state its predecessors left. *)
Fixpoint commit_outcomes (rows : list row) : M World (list outcome) :=
  match rows with
  | [] => ret []
  | r :: rest =>
      o ← row_outcome r;
      outs ← commit_outcomes rest;
      ret (o :: outs)
  end.

(** The requests of the enrichment of one item: one lookup per label,
    followed by one creation request when the lookup found nothing; what
    the creation request answers does not matter. *)
Inductive label_trace (client : GitHubClient.t) (repo : pyval)
  : list string → list call → Prop :=
| trace_done : label_trace client repo [] []
| trace_present label rest body tr :
    body ≠ ∅ →
    label_trace client repo rest tr →
    label_trace client repo (label :: rest)
      (Get (GitHubClient.label_url client repo label) (HttpJson body) :: tr)
| trace_absent label rest found answer tr :
    dict_truthy (GitHubClient.json_or_none found) = false →
    label_trace client repo rest tr →
    label_trace client repo (label :: rest)
      (Get (GitHubClient.label_url client repo label) found
       :: Post (GitHubClient.labels_url client repo)
            (LabelPayload label "cccccc" "") answer
       :: tr).

End Commit.
End Spec.

(** ** A concrete remote service and concrete files *)

Module Demo.
Import CSVHandler ImportPipeline.

(** One iteration order of a set. *)
#[export] Program Instance order : SetOrder := {
  list_of_set := remove_dups
}.
Next Obligation. apply NoDup_remove_dups. Qed.
Next Obligation. intros. apply elem_of_remove_dups. Qed.

(** A service that knows the labels whose URL it holds.  A lookup of
    anything else is a 404; creating a label again is a 422; an issue whose
    title is [boom] is rejected, any other is created. *)
#[export] Instance service : Transport (list string) := {
  requests_get url w :=
    if bool_decide (url ∈ w)
    then (HttpJson {[ "url" := url ]}, w)
    else (HttpError "404 Client Error: Not Found", w);
  requests_post url p w :=
    match p with
    | LabelPayload name _ _ =>
        if bool_decide (url +:+ "/" +:+ name ∈ w)
        then (HttpError "422 Client Error: Unprocessable Entity", w)
        else (HttpJson {[ "name" := name ]}, (url +:+ "/" +:+ name) :: w)
    | IssuePayload title _ _ _ _ =>
        if String.eqb title "boom"
        then (HttpError "500 Server Error", w)
        else (HttpJson {[ "title" := title ]}, w)
    end
}.

(** A service on which no lookup succeeds and every label exists already:
    each lookup is a 404, each creation of a label a 422; issues are
    created. *)
#[export] Instance conflicting : Transport unit := {
  requests_get url w := (HttpError "404 Client Error: Not Found", w);
  requests_post url p w :=
    match p with
    | LabelPayload name _ _ =>
        (HttpError "422 Client Error: Unprocessable Entity", w)
    | IssuePayload title _ _ _ _ => (HttpJson {[ "title" := title ]}, w)
    end
}.

Definition client : GitHubClient.t :=
  GitHubClient.Client "https://api.github.com" "nimeshe".

Definition pipeline : ImportPipeline.t :=
  Pipeline (Config (PStr "support") PNone (PStr "support")) client.

Definition start : remote (list string) := Remote [] [].

Definition mkrow (cells : list (string * string)) : row :=
  list_to_map ((λ kv, (kv.1, PStr kv.2)) <$> cells).

Definition header : list string :=
  ["Title"; "Description"; "Type"; "Labels"; "Assignee"; "Milestone"].

Definition record (title type labels assignee : string) : row :=
  mkrow [("Title", title); ("Description", "text"); ("Type", type);
         ("Labels", labels); ("Assignee", assignee); ("Milestone", "")].

(** A file whose header starts with [Type], and the record of its line
    [Task], which is shorter than the header: [DictReader] fills in [None]
    for the cells that are missing. *)
Definition header_type_first : list string :=
  ["Type"; "Title"; "Description"; "Labels"; "Assignee"; "Milestone"].

Definition short_line : row :=
  list_to_map
    [("Type", PStr "Task"); ("Title", PNone); ("Description", PNone);
     ("Labels", PNone); ("Assignee", PNone); ("Milestone", PNone)].

(** A record of a file whose header has no [Milestone] column. *)
Definition header_without_milestone : list string :=
  ["Title"; "Description"; "Type"; "Labels"; "Assignee"].

Definition record_without_milestone (title type labels assignee : string)
  : row :=
  mkrow [("Title", title); ("Description", "text"); ("Type", type);
         ("Labels", labels); ("Assignee", assignee)].

Definition empty_record : row :=
  mkrow [("Title", ""); ("Description", ""); ("Type", ""); ("Labels", "");
         ("Assignee", ""); ("Milestone", "")].

(** A line shorter than the header: [DictReader] fills in [None]. *)
Definition short_record : row :=
  <["Description" := PNone]> (record "Short line" "Task" "" "").

End Demo.

(** ** cli.py: the other commands *)

Module Cli.
Import CSVHandler ImportPipeline.

Definition newline : string := String (ascii_of_nat 10) EmptyString.

(** [{value or fallback}] inside an f-string. *)
Definition or_text (v : pyval) (fallback : string) : string :=
  if truthy v then py_str v else fallback.

Section Commands.
Context {World : Type} {T : Transport World} {O : SetOrder} (self : t).

(** What [preview] prints for one row, one string per [print]. *)
Definition preview_row (r : row) : list string :=
  ["[" +:+ py_str (get r "Type") +:+ "] " +:+ py_str (get r "Title");
   "  Repository: " +:+ py_str (resolve_repository self r);
   "  Assignee: " +:+ or_text (get r "Assignee") "Unassigned";
   "  Labels: " +:+ or_text (get r "Labels") "None";
   ""].

(** [preview]: what it prints, one string per [print]; nothing on an
    invalid result. *)
Definition preview (validation_result : stage_result) : list string :=
  if negb (valid validation_result) then []
  else
    let rows := data validation_result in
    [newline +:+ "=== Import Preview ===";
     "Total items to import: " +:+ pretty (length rows) +:+ newline]
    ++ concat (preview_row <$> rows).

(** The parsed command line. *)
Inductive command :=
| CmdValidate (csv : csv_source) (dry_run : bool)
| CmdImport (csv : csv_source) (confirm : bool)
| CmdPreview (csv : csv_source).

(** [main]: the exit status of the process.  Without a command the help
    is printed and the status is 1; [validate] and [preview] print and end
    with status 0 unless an exception escapes. *)
Definition main (args : option command) (response : result string)
  : remote World → nat * remote World :=
  λ st,
    match args with
    | None => (1, st)
    | Some (CmdValidate csv dry_run) =>
        match validate csv with
        | Ok _ => (0, st)
        | Raise _ => (1, st)
        end
    | Some (CmdImport csv confirm) => main_import self csv confirm response st
    | Some (CmdPreview csv) =>
        match validate csv with
        | Ok _ => (0, st)
        | Raise _ => (1, st)
        end
    end.

End Commands.
End Cli.

(** ** Reading the call log and the reconciliation passes *)

Module Trace.

Definition is_get (c : call) : bool :=
  match c with
  | Get _ _ => true
  | Post _ _ _ => false
  end.

Definition call_url (c : call) : string :=
  match c with
  | Get url _ => url
  | Post url _ _ => url
  end.

(** The label that a request creates, if it is a creation of a label. *)
Definition created_label (c : call) : option string :=
  match c with
  | Post _ (LabelPayload name _ _) _ => Some name
  | _ => None
  end.

(** The assignee that the reconciliation looks up for a row, if any. *)
Definition assignee_of (r : row) : option string :=
  match get_or r "Assignee" (PStr "") with
  | PStr a => if nonempty (strip a) then Some (strip a) else None
  | PNone => None
  end.

(** The labels that the reconciliation looks up for a row: the parts of
    the trimmed field, trimmed, the empty ones included. *)
Definition labels_of (r : row) : list string :=
  match get_or r "Labels" (PStr "") with
  | PStr s => if nonempty (strip s) then strip <$> split ";" (strip s) else []
  | PNone => []
  end.

(** The four fields that the mapper trims. *)
Definition trimmed_fields : list string :=
  ["Title"; "Description"; "Assignee"; "Milestone"].

Definition attribute_error : string :=
  "'NoneType' object has no attribute 'strip'".

(** What the findings of the Enrich stage have in common: a severity that
    does not block, and a row number along the batch. *)
Definition advisory (rows : list row) (w : finding) : Prop :=
  (f_severity w = Some "warn" ∨ f_severity w = Some "info")
  ∧ (2 ≤ f_row w ≤ 1 + length rows)%nat.

(** The characters of a string. *)
Fixpoint chars (s : string) : list ascii :=
  match s with
  | EmptyString => []
  | String c s' => c :: chars s'
  end.

End Trace.

(** * Properties *)

Import CSVHandler ImportPipeline Spec.

(** ** Values and rows *)

Lemma nonempty_true s : nonempty s = true ↔ s ≠ "".
Proof.
  unfold nonempty. rewrite negb_true_iff. split.
  - intros H ->. discriminate.
  - intros H. destruct (String.eqb_spec s ""); congruence.
Qed.

Lemma nonempty_false s : nonempty s = false ↔ s = "".
Proof.
  unfold nonempty. rewrite negb_false_iff. apply String.eqb_eq.
Qed.

Lemma any_value_false (r : row) : any_value r = false ↔ all_empty r.
Proof.
  unfold any_value, all_empty.
  rewrite bool_decide_eq_false, map_not_Exists.
  split; intros H k v Hk; specialize (H k v Hk); simpl in *;
    destruct (truthy v); congruence.
Qed.

Lemma str_row_lookup (r : row) k : str_row r → r !! k ≠ Some PNone.
Proof. intros H Hk. by apply (H k PNone). Qed.

(** ** Reading and format validation *)

Lemma check_row_findings n (r : row) :
  r !! "Title" ≠ Some PNone → check_row n r = Ok (row_findings n r).
Proof.
  intros Ht. unfold check_row, row_findings, title_ok, get_or.
  destruct (r !! "Title") as [[|t]|]; [done| |]; simpl.
  - reflexivity.
  - reflexivity.
Qed.

Lemma check_row_raises n (r : row) :
  r !! "Title" = Some PNone → ∃ e, check_row n r = Raise e.
Proof.
  intros Ht. unfold check_row, get_or. rewrite Ht. simpl. eauto.
Qed.

Lemma validate_format_from_findings n rows :
  Forall str_row rows →
  validate_format_from n rows = Ok (batch_findings n rows).
Proof.
  intros H. revert n. induction H as [|r rows Hr _ IH]; intros n; [done|].
  simpl. rewrite check_row_findings by by apply str_row_lookup.
  simpl. by rewrite IH.
Qed.

Lemma row_findings_nil n r : row_findings n r = [] ↔ row_ok r = true.
Proof.
  unfold row_findings, row_ok.
  destruct (title_ok r), (type_ok (get r "Type")); naive_solver.
Qed.

Lemma batch_findings_nil n rows :
  batch_findings n rows = [] ↔ Forall (λ r, row_ok r = true) rows.
Proof.
  revert n. induction rows as [|r rows IH]; intros n; simpl.
  - split; [constructor|done].
  - rewrite Forall_cons, <- (IH (S n)), <- (row_findings_nil n).
    split; [by intros [-> ->]%app_eq_nil|by intros [-> ->]].
Qed.

(** A format check that returns has met no [None] title, and returns the
    findings of the batch. *)
Lemma validate_format_from_inv n rows fs :
  validate_format_from n rows = Ok fs →
  Forall (λ r : row, r !! "Title" ≠ Some PNone) rows
  ∧ fs = batch_findings n rows.
Proof.
  revert n fs. induction rows as [|r rows IH]; intros n fs; simpl.
  - intros [= <-]. by split.
  - destruct (decide (r !! "Title" = Some PNone)) as [Ht|Ht].
    + destruct (check_row_raises n r Ht) as [e ->]. done.
    + rewrite check_row_findings by done. simpl.
      destruct (validate_format_from (S n) rows) as [later|e] eqn:E; [|done].
      simpl. intros [= <-]. destruct (IH _ _ E) as [H ->].
      split; [by constructor|done].
Qed.

Lemma row_ok_title (r : row) : row_ok r = true → r !! "Title" ≠ Some PNone.
Proof.
  unfold row_ok, title_ok. intros H Ht. rewrite Ht in H. done.
Qed.

Lemma validate_format_from_ok n rows :
  validate_format_from n rows = Ok [] ↔ Forall (λ r, row_ok r = true) rows.
Proof.
  split.
  - intros H. destruct (validate_format_from_inv _ _ _ H) as [_ Hfs].
    by apply (batch_findings_nil n).
  - intros H. revert n. induction H as [|r rows Hr _ IH]; intros n; [done|].
    simpl. rewrite check_row_findings by by apply row_ok_title.
    simpl. rewrite IH. simpl.
    by apply (row_findings_nil n) in Hr as ->.
Qed.

Lemma row_findings_row n r f : f ∈ row_findings n r → f_row f = n.
Proof.
  unfold row_findings. rewrite elem_of_app.
  destruct (title_ok r), (type_ok (get r "Type")); intros [H|H];
    try (by apply elem_of_nil in H);
    by apply list_elem_of_singleton in H as ->.
Qed.

Lemma batch_findings_rows n rows f :
  f ∈ batch_findings n rows → (n ≤ f_row f)%nat.
Proof.
  revert n. induction rows as [|r rows IH]; intros n; simpl.
  - by intros ?%elem_of_nil.
  - rewrite elem_of_app. intros [H|H].
    + apply row_findings_row in H. lia.
    + apply IH in H. lia.
Qed.

Lemma batch_findings_lookup n rows k r f :
  rows !! k = Some r → f ∈ row_findings (k + n) r →
  f ∈ batch_findings n rows.
Proof.
  revert n k. induction rows as [|r' rows IH]; intros n [|k]; simpl; try done.
  - intros [= ->] H. apply elem_of_app. by left.
  - intros Hk H. apply elem_of_app. right. apply (IH _ k); [done|].
    by replace (k + S n) with (S (k + n)) by lia.
Qed.

Lemma validate_format_from_titles n rows :
  Forall (λ r : row, r !! "Title" ≠ Some PNone) rows →
  validate_format_from n rows = Ok (batch_findings n rows).
Proof.
  intros H. revert n. induction H as [|r rows Hr _ IH]; intros n; [done|].
  simpl. rewrite check_row_findings by done. simpl. by rewrite IH.
Qed.

Lemma validate_returns_titles src :
  Forall (λ r : row, r !! "Title" ≠ Some PNone) (batch_of src) →
  validate src =
    Ok (StageResult
          (bool_decide
             (length (read_findings src ++ batch_findings 2 (batch_of src))
              = 0))
          (length (batch_of src))
          (read_findings src ++ batch_findings 2 (batch_of src)) []
          (batch_of src)).
Proof.
  unfold batch_of, read_findings, validate. intros H.
  destruct (read_csv (init None) src) as [rows errs]; simpl in *.
  unfold validate_format. by rewrite validate_format_from_titles.
Qed.

(** The stage result of [validate] when no title is [None]. *)
Lemma validate_returns src :
  Forall str_row (batch_of src) →
  validate src =
    Ok (StageResult
          (bool_decide
             (length (read_findings src ++ batch_findings 2 (batch_of src))
              = 0))
          (length (batch_of src))
          (read_findings src ++ batch_findings 2 (batch_of src)) []
          (batch_of src)).
Proof.
  unfold batch_of, read_findings, validate. intros H.
  destruct (read_csv (init None) src) as [rows errs]; simpl in *.
  unfold validate_format. by rewrite validate_format_from_findings.
Qed.

Lemma missing_cols_nil template fieldnames :
  missing_cols template fieldnames = [] ↔ template ⊆ fieldnames.
Proof.
  unfold missing_cols. induction template as [|c cs IH].
  - split; [intros _ x Hx; by apply elem_of_nil in Hx|done].
  - rewrite filter_cons. destruct (decide (c ∉ fieldnames)) as [Hc|Hc].
    + split; [done|]. intros H. destruct Hc. apply H. by left.
    + rewrite IH. apply dec_stable in Hc. split.
      * intros H x [->|Hx]%elem_of_cons; [done|by apply H].
      * intros H x Hx. apply H. by right.
Qed.

Lemma missing_cols_elem_of template fieldnames c :
  c ∈ missing_cols template fieldnames ↔ c ∈ template ∧ c ∉ fieldnames.
Proof. unfold missing_cols. rewrite list_elem_of_filter. tauto. Qed.

Lemma read_findings_nil fieldnames records :
  read_findings (Reader fieldnames records None) = []
  ↔ REQUIRED_COLUMNS ⊆ fieldnames.
Proof.
  unfold read_findings. destruct fieldnames as [|c cs]; simpl.
  - split; [done|]. intros H.
    assert ("Title" ∈ @nil string) as ?%elem_of_nil; [|done].
    apply H. by left.
  - rewrite <- missing_cols_nil.
    destruct (missing_cols _ _); simpl; by split.
Qed.

Lemma row0_batch_findings n rows :
  (0 < n)%nat → row0 (batch_findings n rows) = [].
Proof.
  intros Hn. unfold row0.
  destruct (filter _ _) as [|f fs] eqn:E; [done|].
  assert (f ∈ filter (λ f, f_row f = 0) (batch_findings n rows)) as Hf
    by (rewrite E; by left).
  apply list_elem_of_filter in Hf as [H0 Hf%batch_findings_rows]. lia.
Qed.

Lemma batch_of_reader c cs records failure :
  batch_of (Reader (c :: cs) records failure)
  = filter (λ r, any_value r = true) records.
Proof. reflexivity. Qed.

(** C1.  For a file read to its end, the Validate stage returns a result
    with [valid = true] exactly when every row of the batch has a title
    that is non-empty after trimming and a type that is [Epic] or [Task],
    and the header contains all the required columns. *)
Theorem validate_valid_iff fieldnames records :
  let src := Reader fieldnames records None in
  (∃ res, validate src = Ok res ∧ data res = batch_of src
          ∧ valid res = true)
  ↔ (Forall (λ r, row_ok r = true) (batch_of src)
     ∧ REQUIRED_COLUMNS ⊆ fieldnames).
Proof.
  intros src. rewrite <- (read_findings_nil _ records).
  fold src. unfold validate, batch_of, read_findings.
  destruct (read_csv (init None) src) as [rows errs]; simpl. split.
  - intros (res & Hres & _ & Hvalid).
    unfold validate_format in Hres.
    destruct (validate_format_from 2 rows) as [fs|e] eqn:E; [|done].
    simpl in Hres. injection Hres as <-. simpl in Hvalid.
    apply bool_decide_eq_true, nil_length_inv, app_eq_nil in Hvalid
      as [-> ->].
    split; [|done]. by apply (validate_format_from_ok 2).
  - intros [Hrows ->]. unfold validate_format.
    apply (validate_format_from_ok 2) in Hrows as ->. simpl. eauto.
Qed.

(** A file that cannot be read to its end is invalid whatever its rows. *)
Lemma validate_read_failure_invalid fieldnames records e res :
  validate (Reader fieldnames records (Some e)) = Ok res → valid res = false.
Proof.
  unfold validate. destruct fieldnames as [|c cs]; simpl.
  - destruct (validate_format []) eqn:E; [|done]. simpl.
    by intros [= <-].
  - destruct (validate_format _) as [fs|]; [|done]. simpl.
    intros [= <-]. simpl. apply bool_decide_eq_false.
    rewrite !length_app. simpl. lia.
Qed.

(** C7, as stated, fails: with a header that lacks [Milestone] the rows are
    still read and carried in the stage result. *)
Lemma missing_column_keeps_rows :
  ¬ (∀ res,
       validate (Reader Demo.header_without_milestone
                   [Demo.record_without_milestone "Fix login" "Task" "" ""]
                   None) = Ok res →
       valid res = false ∧ length (row0 (errors res)) = 1 ∧ data res = []).
Proof.
  intros H.
  destruct (H _ eq_refl) as (_ & _ & Hdata).
  vm_compute in Hdata. discriminate.
Qed.

(** C7, amended.  When the header is not empty but lacks required columns,
    the file is read to its end and no row kept has [None] for its title,
    the Validate stage returns [valid = false]; its errors are one finding
    of row 0, which names the missing columns, followed by the title and
    type findings of the rows, every one of which is checked; the
    non-empty rows are retained as the data of the result and counted. *)
Theorem missing_column_finding fieldnames records :
  let src := Reader fieldnames records None in
  fieldnames ≠ [] →
  ¬ REQUIRED_COLUMNS ⊆ fieldnames →
  Forall (λ r : row, r !! "Title" ≠ Some PNone) (batch_of src) →
  ∃ res missing,
    validate src = Ok res ∧ valid res = false
    ∧ row0 (errors res) = [missing_columns missing]
    ∧ missing ≠ []
    ∧ (∀ c, c ∈ missing ↔ c ∈ REQUIRED_COLUMNS ∧ c ∉ fieldnames)
    ∧ data res = filter (λ r, any_value r = true) records
    ∧ rows_count res = length (data res)
    ∧ errors res = missing_columns missing :: batch_findings 2 (data res)
    ∧ (∀ k r, data res !! k = Some r →
         (title_ok r = false → title_required (k + 2) ∈ errors res)
         ∧ (type_ok (get r "Type") = false →
            bad_type (k + 2) (get r "Type") ∈ errors res)).
Proof.
  intros src Hfn Hmiss Hrows.
  exists (StageResult
            (bool_decide
               (length (read_findings src ++ batch_findings 2 (batch_of src))
                = 0))
            (length (batch_of src))
            (read_findings src ++ batch_findings 2 (batch_of src)) []
            (batch_of src)),
         (missing_cols REQUIRED_COLUMNS fieldnames).
  split; [by apply validate_returns_titles|].
  rewrite <- missing_cols_nil in Hmiss.
  destruct fieldnames as [|c cs]; [done|].
  assert (read_findings src
          = [missing_columns (missing_cols REQUIRED_COLUMNS (c :: cs))])
    as Hread.
  { unfold read_findings, src. simpl.
    change (init None) with REQUIRED_COLUMNS.
    destruct (missing_cols _ _); [done|]. reflexivity. }
  simpl. rewrite Hread. split_and!.
  - by apply bool_decide_eq_false.
  - unfold row0. rewrite filter_app, filter_cons_True by done.
    rewrite filter_nil. simpl. f_equal.
    apply (row0_batch_findings 2); lia.
  - done.
  - intros c'. apply missing_cols_elem_of.
  - done.
  - done.
  - done.
  - intros k r Hk.
    split; intros H; right; apply (batch_findings_lookup 2 _ k r);
      try done; unfold row_findings; rewrite H; apply elem_of_app;
      [left|right]; by left.
Qed.

(** C7, amended, on a file whose header lacks [Milestone] and whose second
    row has a type that is not allowed. *)
Lemma missing_column_finding_witness :
  let records :=
    [Demo.record_without_milestone "Fix login" "Task" "" "";
     Demo.record_without_milestone "Roadmap" "Bug" "" ""] in
  ∃ res missing,
    validate (Reader Demo.header_without_milestone records None) = Ok res
    ∧ valid res = false
    ∧ row0 (errors res) = [missing_columns missing]
    ∧ missing ≠ []
    ∧ (∀ c, c ∈ missing
            ↔ c ∈ REQUIRED_COLUMNS ∧ c ∉ Demo.header_without_milestone)
    ∧ data res = filter (λ r, any_value r = true) records
    ∧ rows_count res = length (data res)
    ∧ errors res = missing_columns missing :: batch_findings 2 (data res)
    ∧ (∀ k r, data res !! k = Some r →
         (title_ok r = false → title_required (k + 2) ∈ errors res)
         ∧ (type_ok (get r "Type") = false →
            bad_type (k + 2) (get r "Type") ∈ errors res)).
Proof.
  apply missing_column_finding.
  - done.
  - intros H. apply (bool_decide_pack _) in H. vm_compute in H. exact H.
  - apply (bool_decide_unpack _). vm_compute. exact I.
Defined.

(** The stage result of that file. *)
Example missing_column_result :
  validate
    (Reader Demo.header_without_milestone
       [Demo.record_without_milestone "Fix login" "Task" "" "";
        Demo.record_without_milestone "Roadmap" "Bug" "" ""] None)
  = Ok (StageResult false 2
          [missing_columns ["Milestone"]; bad_type 3 (PStr "Bug")] []
          [Demo.record_without_milestone "Fix login" "Task" "" "";
           Demo.record_without_milestone "Roadmap" "Bug" "" ""]).
Proof. vm_compute. reflexivity. Qed.

(** C8.  The row number of a finding is the position of the row in the
    batch, not in the file: here the file's second record (its row 3)
    follows a record with empty values only, and both the format finding
    and the assignee finding of that record say row 2. *)
Lemma finding_row_after_empty_row :
  let bad := Demo.record "Fix login" "Bug" "" "" in
  let ghost := Demo.record "Fix login" "Task" "" "ghost" in
  source_records (Reader Demo.header [Demo.empty_record; bad] None) !! 1
  = Some bad
  ∧ validate (Reader Demo.header [Demo.empty_record; bad] None)
    = Ok (StageResult false 1 [bad_type 2 (PStr "Bug")] [] [bad])
  ∧ validate (Reader Demo.header [Demo.empty_record; ghost] None)
    = Ok (StageResult true 1 [] [] [ghost])
  ∧ (enrich (T := Demo.service) Demo.pipeline
       (StageResult true 1 [] [] [ghost]) Demo.start).1
    = Ok (StageResult true 1 [] [GitHubValidator.user_not_found 2 "ghost"]
            [ghost]).
Proof. split_and!; vm_compute; reflexivity. Qed.

(** The numbering in general: findings are numbered from 2 along the batch
    that [read_csv] returned. *)
Lemma validate_format_numbering rows k r f :
  Forall str_row rows → rows !! k = Some r →
  f ∈ row_findings (k + 2) r →
  ∃ fs, validate_format rows = Ok fs ∧ f ∈ fs ∧ f_row f = k + 2.
Proof.
  intros Hrows Hk Hf. exists (batch_findings 2 rows). split_and!.
  - by apply validate_format_from_findings.
  - by eapply batch_findings_lookup.
  - by eapply row_findings_row.
Qed.

Lemma elem_of_findings_errors res f :
  f ∈ errors res → (f, "error") ∈ findings res.
Proof.
  intros H. unfold findings. apply elem_of_app. left.
  by apply (list_elem_of_fmap_2 (λ f, (f, "error"))).
Qed.

(** C9.  A row whose type is not allowed is reported, but the scan does
    not survive a line shorter than the header: on the file with the header
    [Type,Title,Description,Labels,Assignee,Milestone], the line
    [Bug,Fix login,text,,,] and the line [Task], the second record has
    [None] for its title, the format check raises on it and the Validate
    stage returns nothing, so that the finding of the first record, which
    the same file without its last line gets, is lost. *)
Lemma type_scan_aborts_on_short_line :
  let bad := Demo.record "Fix login" "Bug" "" "" in
  let src := Reader Demo.header_type_first [bad; Demo.short_line] None in
  batch_of src = [bad; Demo.short_line]
  ∧ type_ok (get bad "Type") = false
  ∧ validate src = Raise Trace.attribute_error
  ∧ validate (Reader Demo.header_type_first [bad] None)
    = Ok (StageResult false 1 [bad_type 2 (PStr "Bug")] [] [bad]).
Proof. split_and!; vm_compute; reflexivity. Qed.

(** X17.  When no row of the batch has [None] for its title and a row has
    a type other than [Epic] and [Task], the Validate stage returns
    [valid = false] and lists among its errors a finding of that row with
    field [Type] whose message names the value; the scan covers the whole
    batch: the title and type errors of every row are all listed. *)
Theorem bad_type_reported src k r :
  Forall (λ r : row, r !! "Title" ≠ Some PNone) (batch_of src) →
  batch_of src !! k = Some r →
  type_ok (get r "Type") = false →
  ∃ res,
    validate src = Ok res ∧ valid res = false
    ∧ bad_type (k + 2) (get r "Type") ∈ errors res
    ∧ (bad_type (k + 2) (get r "Type"), "error") ∈ findings res
    ∧ f_field (bad_type (k + 2) (get r "Type")) = "Type"
    ∧ f_message (bad_type (k + 2) (get r "Type"))
      = "Type must be 'Epic' or 'Task', got '" +:+ py_str (get r "Type")
        +:+ "'"
    ∧ (∀ j r', batch_of src !! j = Some r' →
         (title_ok r' = false → title_required (j + 2) ∈ errors res)
         ∧ (type_ok (get r' "Type") = false →
            bad_type (j + 2) (get r' "Type") ∈ errors res)).
Proof.
  intros Hrows Hk Htype.
  eexists. split; [by apply validate_returns_titles|]. simpl.
  assert (∀ j r' f, batch_of src !! j = Some r' →
            f ∈ row_findings (j + 2) r' →
            f ∈ read_findings src ++ batch_findings 2 (batch_of src))
    as Hall.
  { intros j r' f Hj Hf. apply elem_of_app. right.
    by eapply batch_findings_lookup. }
  assert (bad_type (k + 2) (get r "Type") ∈ row_findings (k + 2) r) as Hbad.
  { unfold row_findings. rewrite Htype. apply elem_of_app. right. by left. }
  split_and!.
  - apply bool_decide_eq_false. intros Hlen%nil_length_inv.
    specialize (Hall _ _ _ Hk Hbad). rewrite Hlen in Hall.
    by apply elem_of_nil in Hall.
  - by eapply Hall.
  - apply elem_of_findings_errors. simpl. by eapply Hall.
  - done.
  - done.
  - intros j r' Hj. split; intros H; apply (Hall j r'); try done;
      unfold row_findings; rewrite H; apply elem_of_app; [left|right];
      by left.
Qed.

(** X17 on a batch whose first row has the type [Bug], whose second row
    has no title and whose third row has [None] for its type. *)
Lemma bad_type_reported_witness :
  let untyped := <["Type" := PNone]> (Demo.record "Roadmap" "Epic" "" "") in
  let src :=
    Reader Demo.header
      [Demo.record "Fix login" "Bug" "" ""; Demo.record "" "Task" "" "";
       untyped] None in
  ∃ res,
    validate src = Ok res ∧ valid res = false
    ∧ bad_type (2 + 2) (get untyped "Type") ∈ errors res
    ∧ (bad_type (2 + 2) (get untyped "Type"), "error") ∈ findings res
    ∧ f_field (bad_type (2 + 2) (get untyped "Type")) = "Type"
    ∧ f_message (bad_type (2 + 2) (get untyped "Type"))
      = "Type must be 'Epic' or 'Task', got '"
        +:+ py_str (get untyped "Type") +:+ "'"
    ∧ (∀ j r', batch_of src !! j = Some r' →
         (title_ok r' = false → title_required (j + 2) ∈ errors res)
         ∧ (type_ok (get r' "Type") = false →
            bad_type (j + 2) (get r' "Type") ∈ errors res)).
Proof.
  intros untyped src.
  apply (bad_type_reported src 2 untyped).
  - apply (bool_decide_unpack _). vm_compute. exact I.
  - vm_compute. reflexivity.
  - vm_compute. reflexivity.
Defined.

(** C10.  A record whose values are all empty leaves no trace: [read_csv]
    returns the same rows and findings as for the file without it, the
    record is not in the batch, and the Validate stage and the [import]
    command, which see the file through [read_csv] only, behave as on the
    file without it. *)
Theorem empty_row_invisible fieldnames before e after failure :
  all_empty e →
  let with_e := Reader fieldnames (before ++ (e :: after)) failure in
  let without := Reader fieldnames (before ++ after) failure in
  read_csv (init None) with_e = read_csv (init None) without
  ∧ (e ∉ batch_of with_e)
  ∧ length (batch_of with_e) = length (batch_of without)
  ∧ validate with_e = validate without
  ∧ (∀ World (T : Transport World) (O : SetOrder) self confirm response st,
       main_import self with_e confirm response st
       = main_import self without confirm response st).
Proof.
  intros He%any_value_false with_e without.
  assert (read_csv (init None) with_e = read_csv (init None) without) as Hread.
  { unfold with_e, without. destruct fieldnames as [|c cs]; simpl; [done|].
    rewrite !filter_app, filter_cons_False by congruence. done. }
  assert (validate with_e = validate without) as Hval.
  { unfold validate. by rewrite Hread. }
  split_and!.
  - done.
  - unfold batch_of, with_e. destruct fieldnames as [|c cs]; simpl.
    + apply not_elem_of_nil.
    + intros [H _]%list_elem_of_filter. congruence.
  - unfold batch_of. by rewrite Hread.
  - done.
  - intros. unfold main_import. by rewrite Hval.
Qed.

(** C10 on a file with an empty record between two others. *)
Lemma empty_row_invisible_witness :
  let with_e :=
    Reader Demo.header
      ([Demo.record "Fix login" "Task" "" ""]
       ++ (Demo.empty_record :: [Demo.record "Roadmap" "Epic" "" ""]))
      None in
  let without :=
    Reader Demo.header
      ([Demo.record "Fix login" "Task" "" ""]
       ++ [Demo.record "Roadmap" "Epic" "" ""]) None in
  read_csv (init None) with_e = read_csv (init None) without
  ∧ (Demo.empty_record ∉ batch_of with_e)
  ∧ length (batch_of with_e) = length (batch_of without)
  ∧ validate with_e = validate without
  ∧ (∀ World (T : Transport World) (O : SetOrder) self confirm response st,
       main_import self with_e confirm response st
       = main_import self without confirm response st).
Proof.
  apply empty_row_invisible.
  apply (bool_decide_unpack _). vm_compute. exact I.
Defined.

(** ** The mapper *)

Lemma py_strip_get_or (r : row) k :
  str_row r → ∃ s, get_or r k (PStr "") = PStr s.
Proof.
  intros H. unfold get_or. destruct (r !! k) as [[|s]|] eqn:E; eauto.
  by apply str_row_lookup with (k := k) in H.
Qed.

Lemma parse_labels_parts (r : row) :
  str_row r →
  IssueMapper._parse_labels (get_or r "Labels" (PStr ""))
  = label_parts (labels_field r).
Proof.
  intros H. unfold get_or, labels_field.
  assert (∀ s, IssueMapper._parse_labels (PStr s) = label_parts s) as Hs.
  { intros s. unfold IssueMapper._parse_labels, label_parts.
    destruct (nonempty s) eqn:E.
    - apply list_filter_iff. intros l. apply nonempty_true.
    - apply nonempty_false in E as ->. reflexivity. }
  destruct (r !! "Labels") as [[|s]|] eqn:E; [|apply Hs..].
  by apply str_row_lookup with (k := "Labels") in H.
Qed.

(** C3.  The labels of the item mapped from a record are, without
    duplicates, the parts of its [Labels] field (split on [;], trimmed, the
    empty ones dropped) together with the project tag [ask-myuni]; the tag
    is there whatever the field holds, and the field [bug;  ui ;bug] gives
    exactly [bug], [ui] and the tag. *)
Theorem map_row_labels {O : SetOrder} (r : row) repo :
  str_row r →
  ∃ i,
    IssueMapper.map_row_to_issue r repo = Ok i
    ∧ NoDup (IssueMapper.labels i)
    ∧ (∀ l, l ∈ IssueMapper.labels i
            ↔ l ∈ label_parts (labels_field r) ∨ l = "ask-myuni")
    ∧ "ask-myuni" ∈ IssueMapper.labels i
    ∧ (labels_field r = "bug;  ui ;bug" →
       ∀ l, l ∈ IssueMapper.labels i ↔ l ∈ ["bug"; "ui"; "ask-myuni"]).
Proof.
  intros Hr. unfold IssueMapper.map_row_to_issue.
  destruct (py_strip_get_or r "Title" Hr) as [t ->].
  destruct (py_strip_get_or r "Description" Hr) as [d ->].
  destruct (py_strip_get_or r "Assignee" Hr) as [a ->].
  destruct (py_strip_get_or r "Milestone" Hr) as [m ->].
  rewrite parse_labels_parts by done. simpl.
  eexists. split; [reflexivity|]. simpl.
  assert (∀ l, l ∈ list_of_set
                      (label_parts (labels_field r)
                       ++ [IssueMapper.PROJECT_LABEL])
               ↔ l ∈ label_parts (labels_field r) ∨ l = "ask-myuni") as Hl.
  { intros l.
    by rewrite list_of_set_elem_of, elem_of_app, list_elem_of_singleton. }
  split_and!.
  - apply list_of_set_NoDup.
  - done.
  - apply Hl. by right.
  - intros Hf l. rewrite Hl, Hf.
    change (label_parts "bug;  ui ;bug") with ["bug"; "ui"; "bug"].
    rewrite !elem_of_cons, elem_of_nil. tauto.
Qed.

(** C3 on the record of scenario C. *)
Lemma map_row_labels_witness :
  ∃ i,
    IssueMapper.map_row_to_issue (O := Demo.order)
      (Demo.record "Fix login" "Task" "bug;  ui ;bug" "") (PStr "support")
    = Ok i
    ∧ NoDup (IssueMapper.labels i)
    ∧ (∀ l, l ∈ IssueMapper.labels i
            ↔ l ∈ label_parts
                    (labels_field
                       (Demo.record "Fix login" "Task" "bug;  ui ;bug" ""))
              ∨ l = "ask-myuni")
    ∧ "ask-myuni" ∈ IssueMapper.labels i
    ∧ (labels_field (Demo.record "Fix login" "Task" "bug;  ui ;bug" "")
       = "bug;  ui ;bug" →
       ∀ l, l ∈ IssueMapper.labels i ↔ l ∈ ["bug"; "ui"; "ask-myuni"]).
Proof.
  apply map_row_labels.
  apply (bool_decide_unpack _). vm_compute. exact I.
Defined.

(** ** Enrichment of an item *)

Section Enrichment.
Context {World : Type} {T : Transport World}.
Implicit Types (client : GitHubClient.t) (st : remote World).

Lemma get_label_run client repo label st :
  ∃ found w,
    requests_get (GitHubClient.label_url client repo label) (world st)
    = (found, w)
    ∧ GitHubClient.get_label client repo label st
      = (Ok (GitHubClient.json_or_none found),
         Remote w
           (calls st
            ++ [Get (GitHubClient.label_url client repo label) found])).
Proof.
  unfold GitHubClient.get_label, GitHubClient.http_get, mbind, remote_bind.
  destruct (requests_get _ _) as [found w]. by exists found, w.
Qed.

Lemma create_label_run client repo label st :
  ∃ answer w,
    GitHubClient.create_label client repo label st
    = (Ok (GitHubClient.json_or_none answer),
       Remote w
         (calls st
          ++ [Post (GitHubClient.labels_url client repo)
                (LabelPayload label "cccccc" "") answer])).
Proof.
  unfold GitHubClient.create_label, GitHubClient.http_post, mbind,
    remote_bind.
  destruct (requests_post _ _ _) as [answer w]. by exists answer, w.
Qed.

Lemma dict_truthy_json found :
  dict_truthy (GitHubClient.json_or_none found) = true →
  ∃ body, found = HttpJson body ∧ body ≠ ∅.
Proof.
  destruct found as [e|body]; simpl; [done|].
  intros H%bool_decide_eq_true. eauto.
Qed.

(** The loop returns the labels it was given, after one lookup per label
    and one creation request per label not found. *)
Lemma enrich_labels_run client repo todo enriched st :
  ∃ st' tr,
    IssueMapper.enrich_labels client repo todo enriched st
    = (Ok (enriched ++ todo), st')
    ∧ calls st' = calls st ++ tr
    ∧ label_trace client repo todo tr.
Proof.
  revert enriched st. induction todo as [|label rest IH]; intros enriched st.
  - exists st, []. rewrite !app_nil_r. split_and!; [done..|constructor].
  - simpl. unfold mbind at 1, remote_bind at 1.
    destruct (get_label_run client repo label st) as (found & w & _ & ->).
    destruct (dict_truthy (GitHubClient.json_or_none found)) eqn:Hfound.
    + unfold mbind at 1, remote_bind at 1. simpl.
      destruct (IH (enriched ++ [label]) (Remote w (calls st ++
                  [Get (GitHubClient.label_url client repo label) found])))
        as (st' & tr & -> & Hcalls & Htr).
      apply dict_truthy_json in Hfound as (body & -> & Hbody).
      eexists st', _. rewrite <- (assoc_L (++) enriched). split_and!.
      * done.
      * rewrite Hcalls. simpl. by rewrite <- (assoc_L (++) (calls st)).
      * by constructor.
    + unfold mbind at 1, remote_bind at 1.
      destruct (create_label_run client repo label
                  (Remote w (calls st ++
                     [Get (GitHubClient.label_url client repo label) found])))
        as (answer & w' & ->).
      destruct (IH (enriched ++ [label]) (Remote w' (calls
                  (Remote w (calls st ++
                     [Get (GitHubClient.label_url client repo label) found]))
                  ++ [Post (GitHubClient.labels_url client repo)
                        (LabelPayload label "cccccc" "") answer])))
        as (st' & tr & -> & Hcalls & Htr).
      eexists st', _. rewrite <- (assoc_L (++) enriched). split_and!.
      * done.
      * rewrite Hcalls. simpl. rewrite <- !(assoc_L (++) (calls st)).
        reflexivity.
      * by constructor.
Qed.

Lemma enrich_run client (i : IssueMapper.issue) st :
  ∃ st' tr,
    IssueMapper.enrich_with_github_metadata client i st = (Ok i, st')
    ∧ calls st' = calls st ++ tr
    ∧ label_trace client (IssueMapper.repository i) (IssueMapper.labels i) tr.
Proof.
  unfold IssueMapper.enrich_with_github_metadata, mbind, remote_bind.
  destruct (enrich_labels_run client (IssueMapper.repository i)
              (IssueMapper.labels i) [] st) as (st' & tr & -> & Hc & Htr).
  exists st', tr. by destruct i.
Qed.

(** C4.  Enrichment returns the item it was given: the title, body,
    assignee, milestone, type and repository are unchanged, no label is
    removed, and enriching the result again, in whatever state the remote
    service is by then, gives the same labels. *)
Theorem enrich_only_labels_idempotent client (i : IssueMapper.issue) st :
  ∃ i' st',
    IssueMapper.enrich_with_github_metadata client i st = (Ok i', st')
    ∧ IssueMapper.title i' = IssueMapper.title i
    ∧ IssueMapper.body i' = IssueMapper.body i
    ∧ IssueMapper.assignee i' = IssueMapper.assignee i
    ∧ IssueMapper.milestone i' = IssueMapper.milestone i
    ∧ IssueMapper.type i' = IssueMapper.type i
    ∧ IssueMapper.repository i' = IssueMapper.repository i
    ∧ (∀ l, l ∈ IssueMapper.labels i → l ∈ IssueMapper.labels i')
    ∧ (∀ st1, ∃ i'' st2,
         IssueMapper.enrich_with_github_metadata client i' st1 = (Ok i'', st2)
         ∧ IssueMapper.labels i'' = IssueMapper.labels i').
Proof.
  destruct (enrich_run client i st) as (st' & tr & Hrun & _).
  exists i, st'. split_and!; try done.
  intros st1. destruct (enrich_run client i st1) as (st2 & tr' & Hrun' & _).
  by exists i, st2.
Qed.

End Enrichment.

(** ** The commit stage *)

Section CommitStage.
Context {World : Type} {T : Transport World} {O : SetOrder}.
Implicit Types (self : ImportPipeline.t) (st : remote World).
Implicit Types (client : GitHubClient.t).

Lemma create_issue_run client repo title body labels assignee milestone st :
  ∃ answer w,
    requests_post (GitHubClient.issues_url client repo)
      (IssuePayload title body labels assignee milestone) (world st)
    = (answer, w)
    ∧ GitHubClient.create_issue client repo title body labels assignee
        milestone st
      = (Ok (GitHubClient.json_or_none answer),
         Remote w
           (calls st
            ++ [Post (GitHubClient.issues_url client repo)
                  (IssuePayload title body labels assignee milestone)
                  answer])).
Proof.
  unfold GitHubClient.create_issue, GitHubClient.http_post, mbind,
    remote_bind.
  destruct (requests_post _ _ _) as [answer w]. by exists answer, w.
Qed.

(** C5.  While an item is enriched, each label is looked up and a creation
    request follows each lookup that found nothing; whatever the creation
    requests answer, a failure or a conflict included, enrichment returns
    the item with its labels and the row goes on to the creation of the
    issue: its outcome is [Created] or [Failed] by the answer to that
    request alone.  Stage 3 adds no finding to any stage result. *)
Theorem label_creation_failure_tolerated self (r : row) i st :
  IssueMapper.map_row_to_issue r (resolve_repository self r) = Ok i →
  let client := github_client self in
  let url := GitHubClient.issues_url client (resolve_repository self r) in
  let request :=
    IssuePayload (IssueMapper.title i) (IssueMapper.body i)
      (IssueMapper.labels i) (IssueMapper.assignee i)
      (IssueMapper.milestone i) in
  ∃ st1 tr answer w,
    IssueMapper.enrich_with_github_metadata client i st = (Ok i, st1)
    ∧ calls st1 = calls st ++ tr
    ∧ label_trace client (IssueMapper.repository i) (IssueMapper.labels i) tr
    ∧ requests_post url request (world st1) = (answer, w)
    ∧ row_outcome self r st
      = (Ok match answer with
            | HttpJson c =>
                if bool_decide (c ≠ ∅) then Created c
                else Failed (create_failed r)
            | HttpError _ => Failed (create_failed r)
            end,
         Remote w (calls st1 ++ [Post url request answer])).
Proof.
  intros Hmap client url request.
  destruct (enrich_run client i st) as (st1 & tr & Hrun & Hcalls & Htr).
  destruct (create_issue_run client (resolve_repository self r)
              (IssueMapper.title i) (IssueMapper.body i)
              (IssueMapper.labels i) (IssueMapper.assignee i)
              (IssueMapper.milestone i) st1) as (answer & w & Hpost & Hcreate).
  exists st1, tr, answer, w. split_and!; try done.
  unfold row_outcome, catch, create_row, mbind, remote_bind, lift.
  rewrite Hmap. fold client. rewrite Hrun, Hcreate.
  by destruct answer.
Qed.

Lemma create_row_run self (r : row) st :
  ∃ created st', create_row self r st = (created, st').
Proof. destruct (create_row self r st); eauto. Qed.

(** One iteration appends the outcome of its row to one of the two lists. *)
Lemma import_row_outcome self (r : row) created_issues errors st :
  ∃ o st',
    row_outcome self r st = (Ok o, st')
    ∧ import_row self r (created_issues, errors) st
      = (Ok (created_issues ++ createds [o], errors ++ faileds [o]), st').
Proof.
  unfold row_outcome, import_row, catch, mbind, remote_bind.
  destruct (create_row self r st) as [[[c|]|e] st'].
  - destruct (dict_truthy (Some c)); eexists _, _; split; try done; simpl;
      by rewrite ?app_nil_r.
  - eexists _, _; split; [done|]. simpl. by rewrite app_nil_r.
  - eexists _, _; split; [done|]. simpl. by rewrite app_nil_r.
Qed.

Lemma createds_cons o outs : createds (o :: outs) = createds [o] ++ createds outs.
Proof. by destruct o. Qed.

Lemma faileds_cons o outs : faileds (o :: outs) = faileds [o] ++ faileds outs.
Proof. by destruct o. Qed.

Lemma outcomes_split outs :
  length (createds outs) + length (faileds outs) = length outs.
Proof. induction outs as [|[c|e] outs IH]; simpl in *; lia. Qed.

(** The loop on the two lists follows the sequence of the rows' outcomes. *)
Lemma import_rows_outcomes self rows created_issues errors st :
  ∃ outs st',
    commit_outcomes self rows st = (Ok outs, st')
    ∧ import_rows self rows (created_issues, errors) st
      = (Ok (created_issues ++ createds outs, errors ++ faileds outs), st')
    ∧ Forall2 (λ r o, ∃ s s', row_outcome self r s = (Ok o, s')) rows outs.
Proof.
  revert created_issues errors st.
  induction rows as [|r rows IH]; intros created_issues errors st.
  - exists [], st. simpl. rewrite !app_nil_r. by split_and!.
  - destruct (import_row_outcome self r created_issues errors st)
      as (o & st1 & Ho & Hrow).
    destruct (IH (created_issues ++ createds [o]) (errors ++ faileds [o]) st1)
      as (outs & st2 & Houts & Hrows & Hall).
    exists (o :: outs), st2. split_and!.
    + simpl. unfold mbind, remote_bind. by rewrite Ho, Houts.
    + cbn [import_rows]. unfold mbind, remote_bind. rewrite Hrow, Hrows.
      by rewrite (createds_cons o outs), (faileds_cons o outs),
        !(assoc_L (++)).
    + constructor; eauto.
Qed.

(** C2.  On a valid enrichment result, stage 3 returns its own result, in
    which every row of the batch has exactly one outcome: the outcomes of
    the rows, each processed in the state its predecessors left and
    whatever became of them, form a sequence as long as the batch and in
    its order, and the result lists the created issues and the failures of
    that sequence, each in that order. *)
Theorem import_one_outcome_per_row self er st :
  valid er = true →
  ∃ res st' outs,
    import_to_github self er st = (Ok (inr res), st')
    ∧ commit_outcomes self (data er) st = (Ok outs, st')
    ∧ length outs = length (data er)
    ∧ Forall2 (λ r o, ∃ s s', row_outcome self r s = (Ok o, s'))
        (data er) outs
    ∧ created_issues res = createds outs
    ∧ import_errors res = faileds outs
    ∧ length (created_issues res) + length (import_errors res)
      = length (data er)
    ∧ total_created res = length (created_issues res)
    ∧ import_valid res = bool_decide (import_errors res = []).
Proof.
  intros Hvalid. unfold import_to_github. rewrite Hvalid. simpl.
  destruct (import_rows_outcomes self (data er) [] [] st)
    as (outs & st' & Houts & Hrows & Hall).
  unfold mbind, remote_bind. rewrite Hrows. simpl.
  eexists _, st', outs. split; [reflexivity|]. simpl.
  pose proof (Forall2_length _ _ _ Hall) as Hlen.
  split_and!; try done.
  - by rewrite outcomes_split.
  - apply bool_decide_ext. split; [apply nil_length_inv|by intros ->].
Qed.


(** ** Reconciliation and the [import] command *)

Lemma check_assignee_run client n assignee st :
  ∃ fs st',
    GitHubValidator.check_assignee client n assignee st = (Ok fs, st').
Proof.
  unfold GitHubValidator.check_assignee, catch, GitHubClient.get_user,
    GitHubClient.http_get, mbind, remote_bind.
  destruct (requests_get _ _). by eexists _, _.
Qed.

Lemma validate_assignees_from_run client n rows st :
  Forall str_row rows →
  ∃ fs st',
    GitHubValidator.validate_assignees_from client n rows st = (Ok fs, st').
Proof.
  intros H. revert n st. induction H as [|r rows Hr _ IH]; intros n st.
  - by eexists _, _.
  - cbn [GitHubValidator.validate_assignees_from].
    destruct (py_strip_get_or r "Assignee" Hr) as [a ->].
    unfold mbind at 1, remote_bind at 1, lift. simpl.
    unfold mbind at 1, remote_bind at 1.
    destruct (nonempty (strip a)).
    + destruct (check_assignee_run client n (strip a) st)
        as (fs & st1 & ->).
      unfold mbind, remote_bind.
      destruct (IH (S n) st1) as (later & st2 & ->). by eexists _, _.
    + unfold ret, mbind, remote_bind.
      destruct (IH (S n) st) as (later & st2 & ->). by eexists _, _.
Qed.

Lemma check_labels_run client n repo labels st :
  ∃ fs st',
    GitHubValidator.check_labels client n repo labels st = (Ok fs, st').
Proof.
  revert st. induction labels as [|label rest IH]; intros st.
  - by eexists _, _.
  - cbn [GitHubValidator.check_labels].
    unfold mbind at 1, remote_bind at 1.
    assert (∃ fs st',
              GitHubValidator.check_label client n repo label st
              = (Ok fs, st')) as (fs & st1 & ->).
    { unfold GitHubValidator.check_label, catch, GitHubClient.get_label,
        GitHubClient.http_get, mbind, remote_bind.
      destruct (requests_get _ _). by eexists _, _. }
    unfold mbind, remote_bind.
    destruct (IH st1) as (later & st2 & ->). by eexists _, _.
Qed.

Lemma validate_labels_from_run client n rows repo st :
  Forall str_row rows →
  ∃ fs st',
    GitHubValidator.validate_labels_from client n rows repo st = (Ok fs, st').
Proof.
  intros H. revert n st. induction H as [|r rows Hr _ IH]; intros n st.
  - by eexists _, _.
  - cbn [GitHubValidator.validate_labels_from].
    destruct (py_strip_get_or r "Labels" Hr) as [a ->].
    unfold mbind at 1, remote_bind at 1, lift. simpl.
    unfold mbind at 1, remote_bind at 1.
    destruct (nonempty (strip a)).
    + destruct (check_labels_run client n repo
                  (strip <$> split ";" (strip a)) st) as (fs & st1 & ->).
      unfold mbind, remote_bind.
      destruct (IH (S n) st1) as (later & st2 & ->). by eexists _, _.
    + unfold ret, mbind, remote_bind.
      destruct (IH (S n) st) as (later & st2 & ->). by eexists _, _.
Qed.

Lemma validate_label_repos_run self rows repos st :
  Forall str_row rows →
  ∃ fs st', validate_label_repos self rows repos st = (Ok fs, st').
Proof.
  intros H. revert st. induction repos as [|repo rest IH]; intros st.
  - by eexists _, _.
  - cbn [validate_label_repos]. unfold mbind at 1, remote_bind at 1.
    destruct (truthy repo).
    + destruct (validate_labels_from_run (github_client self) 2 rows repo st H)
        as (fs & st1 & Hfs).
      unfold GitHubValidator.validate_labels. rewrite Hfs.
      unfold mbind, remote_bind.
      destruct (IH st1) as (later & st2 & ->). by eexists _, _.
    + unfold ret, mbind, remote_bind.
      destruct (IH st) as (later & st2 & ->). by eexists _, _.
Qed.

(** Stage 2 returns on rows of strings, and only adds warnings. *)
Lemma enrich_run_stage self res st :
  Forall str_row (data res) →
  ∃ res' st',
    enrich self res st = (Ok res', st')
    ∧ valid res' = valid res ∧ errors res' = errors res
    ∧ data res' = data res ∧ rows_count res' = rows_count res.
Proof.
  intros H. unfold enrich. destruct (valid res) eqn:Hv; cbn [negb].
  - destruct (validate_assignees_from_run (github_client self) 2
                (data res) st H) as (fs & st1 & Hfs).
    unfold mbind at 1, remote_bind at 1, GitHubValidator.validate_assignees.
    rewrite Hfs.
    destruct (validate_label_repos_run self (data res)
                [primary (repository_rules self);
                 secondary (repository_rules self)] st1 H)
      as (ls & st2 & Hls).
    unfold mbind, remote_bind. rewrite Hls. by eexists _, _.
  - by eexists _, _.
Qed.




End CommitStage.


(** The exit status on a valid file, one row of which fails at commit: 0
    when the prompt is skipped, 0 when the caller answers [yes] or [no], 1
    when the standard input is closed. *)
Example import_exit_status_cases :
  let src :=
    Reader Demo.header
      [Demo.record "Fix login" "Task" "bug" "bob";
       Demo.record "boom" "Task" "" ""] None in
  let run confirm response :=
    (main_import (T := Demo.service) (O := Demo.order) Demo.pipeline src
       confirm response Demo.start).1 in
  run true (Raise "EOF when reading a line") = 0
  ∧ run false (Ok "YES") = 0
  ∧ run false (Ok "no") = 0
  ∧ run false (Raise "EOF when reading a line") = 1.
Proof. split_and!; vm_compute; reflexivity. Qed.

(** C2 on a batch of four rows, two of which fail. *)
Lemma import_one_outcome_per_row_witness :
  let er :=
    StageResult true 4 [] []
      [Demo.record "Fix login" "Task" "bug; ui" "bob";
       Demo.record "boom" "Task" "bug" ""; Demo.short_record;
       Demo.record "Roadmap" "Epic" "" ""] in
  ∃ res st' outs,
    import_to_github (T := Demo.service) (O := Demo.order) Demo.pipeline er
      Demo.start = (Ok (inr res), st')
    ∧ commit_outcomes (T := Demo.service) (O := Demo.order) Demo.pipeline
        (data er) Demo.start = (Ok outs, st')
    ∧ length outs = length (data er)
    ∧ Forall2
        (λ r o, ∃ s s',
           row_outcome (T := Demo.service) (O := Demo.order) Demo.pipeline r s
           = (Ok o, s'))
        (data er) outs
    ∧ created_issues res = createds outs
    ∧ import_errors res = faileds outs
    ∧ length (created_issues res) + length (import_errors res)
      = length (data er)
    ∧ total_created res = length (created_issues res)
    ∧ import_valid res = bool_decide (import_errors res = []).
Proof.
  apply (import_one_outcome_per_row (T := Demo.service) (O := Demo.order)).
  reflexivity.
Defined.

(** The run of the witness: the second row is rejected by the service and
    the third raises in the mapper; the first and the fourth are created. *)
Example import_mixed_outcomes :
  (commit_outcomes (T := Demo.service) (O := Demo.order) Demo.pipeline
     [Demo.record "Fix login" "Task" "bug; ui" "bob";
      Demo.record "boom" "Task" "bug" ""; Demo.short_record;
      Demo.record "Roadmap" "Epic" "" ""] Demo.start).1
  = Ok [Created {[ "title" := "Fix login" ]};
        Failed (ImportError (PStr "boom") "Failed to create issue");
        Failed (ImportError (PStr "Short line")
                  "'NoneType' object has no attribute 'strip'");
        Created {[ "title" := "Roadmap" ]}].
Proof. vm_compute. reflexivity. Qed.

(** C5 on a service that refuses every creation of a label. *)
Lemma label_creation_failure_tolerated_witness :
  let self := Demo.pipeline in
  let r := Demo.record "Fix login" "Task" "bug" "" in
  let i :=
    IssueMapper.Issue "Fix login" "text" ["bug"; "ask-myuni"] None None
      (PStr "Task") (PStr "support") in
  let st : remote unit := Remote () [] in
  let client := github_client self in
  let url := GitHubClient.issues_url client (resolve_repository self r) in
  let request :=
    IssuePayload (IssueMapper.title i) (IssueMapper.body i)
      (IssueMapper.labels i) (IssueMapper.assignee i)
      (IssueMapper.milestone i) in
  ∃ st1 tr answer w,
    IssueMapper.enrich_with_github_metadata (T := Demo.conflicting) client i
      st = (Ok i, st1)
    ∧ calls st1 = calls st ++ tr
    ∧ label_trace client (IssueMapper.repository i) (IssueMapper.labels i) tr
    ∧ requests_post (Transport := Demo.conflicting) url request (world st1)
      = (answer, w)
    ∧ row_outcome (T := Demo.conflicting) (O := Demo.order) self r st
      = (Ok match answer with
            | HttpJson c =>
                if bool_decide (c ≠ ∅) then Created c
                else Failed (create_failed r)
            | HttpError _ => Failed (create_failed r)
            end,
         Remote w (calls st1 ++ [Post url request answer])).
Proof.
  intros self r i st.
  apply (label_creation_failure_tolerated (T := Demo.conflicting)
           (O := Demo.order) self r i st).
  vm_compute. reflexivity.
Defined.

(** On the service that answers every creation of a label with a conflict,
    the row is created all the same, after a lookup and a refused creation
    for each of its two labels. *)
Example conflict_still_created :
  let r := Demo.record "Fix login" "Task" "bug" "" in
  let out :=
    row_outcome (T := Demo.conflicting) (O := Demo.order) Demo.pipeline r
      (Remote () []) in
  out.1 = Ok (Created {[ "title" := "Fix login" ]})
  ∧ length (calls out.2) = 5.
Proof. split; vm_compute; reflexivity. Qed.

(** * Further properties of the code *)

Import Cli Trace.

(** ** csv_handler.py *)

(** X1.  The rows that [read_csv] returns are the records of the file in
    their order with some left out; none of them has empty values only,
    and when the file has a header every record with a non-empty value is
    among them. *)
Theorem read_csv_batch src :
  batch_of src `sublist_of` source_records src
  ∧ Forall (λ r, any_value r = true) (batch_of src)
  ∧ (∀ c cs records failure r,
       src = Reader (c :: cs) records failure →
       r ∈ records → any_value r = true → r ∈ batch_of src).
Proof.
  split_and!.
  - destruct src as [e|[|c cs] records failure]; simpl.
    + constructor.
    + apply sublist_nil_l.
    + apply sublist_filter.
  - apply Forall_forall. intros r.
    destruct src as [e|[|c cs] records failure]; simpl;
      try by intros ?%elem_of_nil.
    by intros [? _]%list_elem_of_filter.
  - intros c cs records failure r -> Hr Hv. rewrite batch_of_reader.
    by apply list_elem_of_filter.
Qed.

Lemma batch_findings_length n rows :
  (length (batch_findings n rows) ≤ 2 * length rows)%nat.
Proof.
  revert n. induction rows as [|r rows IH]; intros n; simpl; [lia|].
  rewrite length_app. specialize (IH (S n)).
  assert (length (row_findings n r) ≤ 2)%nat.
  { unfold row_findings.
    destruct (title_ok r), (type_ok (get r "Type")); simpl; lia. }
  lia.
Qed.

Lemma batch_findings_upper n rows f :
  f ∈ batch_findings n rows → (f_row f < n + length rows)%nat.
Proof.
  revert n. induction rows as [|r rows IH]; intros n; simpl.
  - by intros ?%elem_of_nil.
  - rewrite elem_of_app. intros [H|H].
    + apply row_findings_row in H. lia.
    + apply IH in H. lia.
Qed.

Lemma batch_findings_sorted n rows :
  StronglySorted (λ f g, (f_row f ≤ f_row g)%nat) (batch_findings n rows).
Proof.
  revert n. induction rows as [|r rows IH]; intros n; simpl; [constructor|].
  apply StronglySorted_app_2; [| |apply IH].
  - intros f g Hf%row_findings_row Hg%batch_findings_rows. lia.
  - unfold row_findings.
    destruct (title_ok r), (type_ok (get r "Type")); simpl;
      repeat constructor.
Qed.

Lemma batch_findings_shape n rows f :
  f ∈ batch_findings n rows →
  f_severity f = None ∧ (f_field f = "Title" ∨ f_field f = "Type").
Proof.
  revert n. induction rows as [|r rows IH]; intros n; simpl.
  - by intros ?%elem_of_nil.
  - rewrite elem_of_app. intros [H|H]; [|by eapply IH].
    unfold row_findings in H. rewrite elem_of_app in H.
    destruct (title_ok r), (type_ok (get r "Type")), H as [H|H];
      try (by apply elem_of_nil in H);
      apply list_elem_of_singleton in H as ->; simpl; auto.
Qed.

Lemma filter_row_findings_eq m r :
  filter (λ f, f_row f = m) (row_findings m r) = row_findings m r.
Proof.
  unfold row_findings.
  destruct (title_ok r), (type_ok (get r "Type")); simpl;
    by rewrite ?filter_cons_True by done.
Qed.

Lemma filter_row_findings_ne m n r :
  m ≠ n → filter (λ f, f_row f = n) (row_findings m r) = [].
Proof.
  intros H. unfold row_findings.
  destruct (title_ok r), (type_ok (get r "Type")); simpl;
    by rewrite ?filter_cons_False by done.
Qed.

Lemma filter_batch_findings_lt m n rows :
  (n < m)%nat → filter (λ f, f_row f = n) (batch_findings m rows) = [].
Proof.
  intros Hn. destruct (filter _ _) as [|f fs] eqn:E; [done|].
  assert (f ∈ filter (λ f, f_row f = n) (batch_findings m rows)) as Hf
    by (rewrite E; by left).
  apply list_elem_of_filter in Hf as [H0 Hf%batch_findings_rows]. lia.
Qed.

Lemma filter_batch_findings_lookup m rows k r :
  rows !! k = Some r →
  filter (λ f, f_row f = m + k) (batch_findings m rows)
  = row_findings (m + k) r.
Proof.
  revert m k. induction rows as [|r' rows IH]; intros m [|k] Hk;
    try done; simpl in Hk; cbn [batch_findings]; rewrite filter_app.
  - injection Hk as ->. rewrite Nat.add_0_r, filter_row_findings_eq.
    rewrite filter_batch_findings_lt by lia. by rewrite app_nil_r.
  - rewrite filter_row_findings_ne by lia. simpl.
    replace (m + S k) with (S m + k) by lia. by apply IH.
Qed.

Lemma filter_batch_findings_length m n rows :
  (length (filter (λ f, f_row f = n) (batch_findings m rows)) ≤ 2)%nat.
Proof.
  revert m. induction rows as [|r rows IH]; intros m; simpl; [lia|].
  rewrite filter_app, length_app. destruct (decide (m = n)) as [->|Hm].
  - rewrite filter_row_findings_eq, filter_batch_findings_lt by lia.
    unfold row_findings.
    destruct (title_ok r), (type_ok (get r "Type")); simpl; lia.
  - rewrite filter_row_findings_ne by done. simpl. apply IH.
Qed.

(** X2.  When the format check returns, it reports at most two findings
    per row, in the order of the rows: the findings numbered [k + 2] are
    those of the row at position [k], the one of its title before the one
    of its type, and no other number has any; each finding carries a row
    number from 2 to the number of rows plus 1, the field [Title] or
    [Type], and no severity. *)
Theorem validate_format_findings rows fs :
  validate_format rows = Ok fs →
  (length fs ≤ 2 * length rows)%nat
  ∧ StronglySorted (λ f g, (f_row f ≤ f_row g)%nat) fs
  ∧ Forall (λ f, (2 ≤ f_row f ≤ 1 + length rows)%nat
                 ∧ f_severity f = None
                 ∧ (f_field f = "Title" ∨ f_field f = "Type")) fs
  ∧ (∀ n, (length (filter (λ f, f_row f = n) fs) ≤ 2)%nat)
  ∧ (∀ k r, rows !! k = Some r →
       filter (λ f, f_row f = k + 2) fs
       = (if title_ok r then [] else [title_required (k + 2)])
         ++ (if type_ok (get r "Type") then []
             else [bad_type (k + 2) (get r "Type")])).
Proof.
  intros [_ ->]%validate_format_from_inv. split_and!.
  - apply batch_findings_length.
  - apply batch_findings_sorted.
  - apply Forall_forall. intros f Hf. split_and!.
    + by apply batch_findings_rows in Hf.
    + apply batch_findings_upper in Hf. lia.
    + by apply batch_findings_shape in Hf as [? ?].
    + by apply batch_findings_shape in Hf as [? ?].
  - intros n. apply filter_batch_findings_length.
  - intros k r Hk. rewrite (Nat.add_comm k 2).
    by rewrite (filter_batch_findings_lookup 2 rows k r).
Qed.

(** X2 on a batch of three rows, two of them faulty. *)
Lemma validate_format_findings_witness :
  let rows :=
    [Demo.record "" "Bug" "" ""; Demo.record "Roadmap" "Epic" "" "";
     Demo.record "Fix login" "Story" "" ""] in
  let fs :=
    [title_required 2; bad_type 2 (PStr "Bug"); bad_type 4 (PStr "Story")] in
  (length fs ≤ 2 * length rows)%nat
  ∧ StronglySorted (λ f g, (f_row f ≤ f_row g)%nat) fs
  ∧ Forall (λ f, (2 ≤ f_row f ≤ 1 + length rows)%nat
                 ∧ f_severity f = None
                 ∧ (f_field f = "Title" ∨ f_field f = "Type")) fs
  ∧ (∀ n, (length (filter (λ f, f_row f = n) fs) ≤ 2)%nat)
  ∧ (∀ k r, rows !! k = Some r →
       filter (λ f, f_row f = k + 2) fs
       = (if title_ok r then [] else [title_required (k + 2)])
         ++ (if type_ok (get r "Type") then []
             else [bad_type (k + 2) (get r "Type")])).
Proof.
  intros rows fs. apply (validate_format_findings rows fs).
  vm_compute. reflexivity.
Defined.

Lemma validate_format_from_raises n rows (r : row) :
  r ∈ rows → r !! "Title" = Some PNone →
  validate_format_from n rows = Raise attribute_error.
Proof.
  intros Hr Ht. revert n. induction rows as [|r' rows IH]; intros n.
  - by apply elem_of_nil in Hr.
  - simpl. destruct (decide (r' !! "Title" = Some PNone)) as [Ht'|Ht'].
    + unfold check_row, get_or. by rewrite Ht'.
    + rewrite check_row_findings by done. simpl.
      apply elem_of_cons in Hr as [->|Hr]; [done|].
      by rewrite IH.
Qed.

(** X3.  A row of the batch whose title is [None], as a line shorter than
    the header gives, makes the Validate stage raise the attribute error of
    [None.strip()]: no stage result is returned, whatever the other rows
    and the header are. *)
Theorem validate_none_title_raises src (r : row) :
  r ∈ batch_of src → r !! "Title" = Some PNone →
  validate src = Raise attribute_error.
Proof.
  intros Hr Ht. unfold validate, batch_of in *.
  destruct (read_csv (init None) src) as [rows errs]; simpl in *.
  unfold validate_format. by rewrite (validate_format_from_raises 2 rows r).
Qed.

(** X3 on a file whose second record lacks its title. *)
Lemma validate_none_title_raises_witness :
  validate
    (Reader Demo.header
       [Demo.record "Fix login" "Bug" "" "";
        <["Title" := PNone]> (Demo.record "" "Task" "" "")] None)
  = Raise attribute_error.
Proof.
  apply (validate_none_title_raises _
           (<["Title" := PNone]> (Demo.record "" "Task" "" ""))).
  - apply (bool_decide_unpack _). vm_compute. exact I.
  - vm_compute. reflexivity.
Defined.

(** X4.  When the reader raises after the header, the rows read before are
    still returned and checked: on rows of strings the Validate stage
    returns an invalid result that carries those rows, the finding of the
    failure with row 0 and field [file], and the format findings of every
    row. *)
Theorem read_failure_keeps_rows c cs records e :
  let src := Reader (c :: cs) records (Some e) in
  Forall str_row (batch_of src) →
  ∃ res,
    validate src = Ok res ∧ valid res = false
    ∧ data res = filter (λ r, any_value r = true) records
    ∧ rows_count res = length (data res)
    ∧ read_failed e ∈ errors res
    ∧ (∀ k r f, data res !! k = Some r → f ∈ row_findings (k + 2) r →
                f ∈ errors res).
Proof.
  intros src Hrows. eexists. split; [by apply validate_returns|]. simpl.
  assert (read_failed e ∈ read_findings src) as He.
  { unfold read_findings, src. simpl. apply elem_of_app. right. by left. }
  split_and!; try done.
  - apply bool_decide_eq_false. intros Hlen%nil_length_inv.
    apply app_eq_nil in Hlen as [Hnil _]. rewrite Hnil in He.
    by apply elem_of_nil in He.
  - apply elem_of_app. by left.
  - intros k r f Hk Hf. apply elem_of_app. right.
    by eapply batch_findings_lookup.
Qed.

(** X4 on a file that breaks off after its first record. *)
Lemma read_failure_keeps_rows_witness :
  let src :=
    Reader ("Title" :: ["Description"; "Type"; "Labels"; "Assignee";
                        "Milestone"])
      [Demo.record "Fix login" "Bug" "" ""]
      (Some "'utf-8' codec can't decode byte 0xff") in
  ∃ res,
    validate src = Ok res ∧ valid res = false
    ∧ data res = filter (λ r, any_value r = true)
                   [Demo.record "Fix login" "Bug" "" ""]
    ∧ rows_count res = length (data res)
    ∧ read_failed "'utf-8' codec can't decode byte 0xff" ∈ errors res
    ∧ (∀ k r f, data res !! k = Some r → f ∈ row_findings (k + 2) r →
                f ∈ errors res).
Proof.
  apply read_failure_keeps_rows.
  apply (bool_decide_unpack _). vm_compute. exact I.
Defined.

(** ** validators.py *)

Section Reconciliation.
Context {World : Type} {T : Transport World}.
Implicit Types (client : GitHubClient.t) (st : remote World).

Lemma check_assignee_spec client n assignee st :
  ∃ found w,
    GitHubValidator.check_assignee client n assignee st
    = (Ok (if dict_truthy (GitHubClient.json_or_none found) then []
           else [GitHubValidator.user_not_found n assignee]),
       Remote w
         (calls st ++ [Get (GitHubClient.user_url client assignee) found])).
Proof.
  unfold GitHubValidator.check_assignee, catch, GitHubClient.get_user,
    GitHubClient.http_get, mbind, remote_bind.
  destruct (requests_get _ _) as [found w]. by exists found, w.
Qed.

Lemma assignee_of_str (r : row) :
  str_row r →
  ∃ a, get_or r "Assignee" (PStr "") = PStr a
       ∧ assignee_of r = if nonempty (strip a) then Some (strip a) else None.
Proof.
  intros Hr. destruct (py_strip_get_or r "Assignee" Hr) as [a Ha].
  exists a. split; [done|]. unfold assignee_of. by rewrite Ha.
Qed.

Lemma validate_assignees_from_spec client n rows st :
  Forall str_row rows →
  ∃ fs st' tr,
    GitHubValidator.validate_assignees_from client n rows st = (Ok fs, st')
    ∧ calls st' = calls st ++ tr
    ∧ Forall (λ c, is_get c = true) tr
    ∧ call_url <$> tr
      = GitHubClient.user_url client <$> omap assignee_of rows
    ∧ Forall (λ f, ∃ k r a,
                rows !! k = Some r ∧ assignee_of r = Some a
                ∧ f = GitHubValidator.user_not_found (n + k) a) fs.
Proof.
  intros H. revert n st. induction H as [|r rows Hr _ IH]; intros n st.
  - exists [], st, []. rewrite app_nil_r. by split_and!.
  - cbn [GitHubValidator.validate_assignees_from].
    destruct (assignee_of_str r Hr) as (a & Ha & Hof). rewrite Ha.
    unfold mbind at 1, remote_bind at 1, lift. simpl.
    unfold mbind at 1, remote_bind at 1.
    cbn [omap list_omap]. rewrite Hof.
    destruct (nonempty (strip a)).
    + destruct (check_assignee_spec client n (strip a) st)
        as (found & w & ->).
      unfold mbind, remote_bind.
      destruct (IH (S n) (Remote w (calls st
                  ++ [Get (GitHubClient.user_url client (strip a)) found])))
        as (later & st2 & tr & -> & Hcalls & Hget & Hurls & Hfs).
      eexists _, st2, (_ :: tr). split_and!.
      * reflexivity.
      * rewrite Hcalls. simpl. by rewrite <- (assoc_L (++)).
      * by constructor.
      * by rewrite !fmap_cons, Hurls.
      * apply Forall_app. split.
        -- destruct (dict_truthy _); constructor; [|constructor].
           exists 0, r, (strip a). split_and!; try done.
           by rewrite Nat.add_0_r.
        -- eapply Forall_impl; [exact Hfs|]. simpl.
           intros f (k & r' & a' & Hk & Ha' & ->).
           exists (S k), r', a'. split_and!; try done.
           by rewrite Nat.add_succ_r.
    + unfold ret, mbind, remote_bind.
      destruct (IH (S n) st)
        as (later & st2 & tr & -> & Hcalls & Hget & Hurls & Hfs).
      eexists _, st2, tr. split_and!; try done.
      simpl. eapply Forall_impl; [exact Hfs|]. simpl.
      intros f (k & r' & a' & Hk & Ha' & ->).
      exists (S k), r', a'. split_and!; try done.
      by rewrite Nat.add_succ_r.
Qed.

(** X5.  On rows of strings the assignee pass returns, after one lookup,
    in the order of the rows, for each row whose trimmed assignee is not
    empty and none for the others; nothing but lookups is requested.  Each
    finding is the warning that the assignee of its row was not found,
    numbered from 2 along the rows: a lookup that fails is reported as not
    found too, since the client answers [None] for both. *)
Theorem validate_assignees_lookups client rows st :
  Forall str_row rows →
  ∃ fs st' tr,
    GitHubValidator.validate_assignees client rows st = (Ok fs, st')
    ∧ calls st' = calls st ++ tr
    ∧ Forall (λ c, is_get c = true) tr
    ∧ call_url <$> tr
      = GitHubClient.user_url client <$> omap assignee_of rows
    ∧ Forall (λ f, ∃ k r a,
                rows !! k = Some r ∧ assignee_of r = Some a
                ∧ f = GitHubValidator.user_not_found (2 + k) a) fs.
Proof. apply validate_assignees_from_spec. Qed.

Lemma check_labels_spec client n repo labels st :
  ∃ fs st' tr,
    GitHubValidator.check_labels client n repo labels st = (Ok fs, st')
    ∧ calls st' = calls st ++ tr
    ∧ Forall (λ c, is_get c = true) tr
    ∧ call_url <$> tr = GitHubClient.label_url client repo <$> labels
    ∧ Forall (λ f, ∃ l, l ∈ labels
                        ∧ f = GitHubValidator.label_not_found n l repo) fs.
Proof.
  revert st. induction labels as [|label rest IH]; intros st.
  - exists [], st, []. rewrite app_nil_r. by split_and!.
  - cbn [GitHubValidator.check_labels].
    unfold mbind at 1, remote_bind at 1.
    assert (∃ found w,
              GitHubValidator.check_label client n repo label st
              = (Ok (if dict_truthy (GitHubClient.json_or_none found) then []
                     else [GitHubValidator.label_not_found n label repo]),
                 Remote w
                   (calls st
                    ++ [Get (GitHubClient.label_url client repo label)
                          found]))) as (found & w & ->).
    { unfold GitHubValidator.check_label, catch, GitHubClient.get_label,
        GitHubClient.http_get, mbind, remote_bind.
      destruct (requests_get _ _) as [found w]. by exists found, w. }
    unfold mbind, remote_bind.
    destruct (IH (Remote w (calls st
                ++ [Get (GitHubClient.label_url client repo label) found])))
      as (later & st2 & tr & -> & Hcalls & Hget & Hurls & Hfs).
    eexists _, st2, (_ :: tr). split_and!.
    + reflexivity.
    + rewrite Hcalls. simpl. by rewrite <- (assoc_L (++)).
    + by constructor.
    + by rewrite !fmap_cons, Hurls.
    + apply Forall_app. split.
      * destruct (dict_truthy _); constructor; [|constructor].
        exists label. split; [by left|done].
      * eapply Forall_impl; [exact Hfs|]. simpl.
        intros f (l & Hl & ->). exists l. split; [by right|done].
Qed.

Lemma labels_of_str (r : row) :
  str_row r →
  ∃ s, get_or r "Labels" (PStr "") = PStr s
       ∧ labels_of r = if nonempty (strip s)
                       then strip <$> split ";" (strip s) else [].
Proof.
  intros Hr. destruct (py_strip_get_or r "Labels" Hr) as [s Hs].
  exists s. split; [done|]. unfold labels_of. by rewrite Hs.
Qed.

Lemma validate_labels_from_spec client n rows repo st :
  Forall str_row rows →
  ∃ fs st' tr,
    GitHubValidator.validate_labels_from client n rows repo st = (Ok fs, st')
    ∧ calls st' = calls st ++ tr
    ∧ Forall (λ c, is_get c = true) tr
    ∧ call_url <$> tr
      = GitHubClient.label_url client repo <$> concat (labels_of <$> rows)
    ∧ Forall (λ f, ∃ k r l,
                rows !! k = Some r ∧ l ∈ labels_of r
                ∧ f = GitHubValidator.label_not_found (n + k) l repo) fs.
Proof.
  intros H. revert n st. induction H as [|r rows Hr _ IH]; intros n st.
  - exists [], st, []. rewrite app_nil_r. by split_and!.
  - cbn [GitHubValidator.validate_labels_from].
    destruct (labels_of_str r Hr) as (s & Hs & Hof). rewrite Hs.
    unfold mbind at 1, remote_bind at 1, lift. simpl.
    unfold mbind at 1, remote_bind at 1.
    rewrite Hof, fmap_app.
    destruct (nonempty (strip s)).
    + destruct (check_labels_spec client n repo
                  (strip <$> split ";" (strip s)) st)
        as (fs & st1 & tr1 & -> & Hcalls1 & Hget1 & Hurls1 & Hfs1).
      unfold mbind, remote_bind.
      destruct (IH (S n) st1)
        as (later & st2 & tr & -> & Hcalls & Hget & Hurls & Hfs).
      eexists _, st2, (tr1 ++ tr). split_and!.
      * reflexivity.
      * by rewrite Hcalls, Hcalls1, (assoc_L (++)).
      * by apply Forall_app.
      * by rewrite fmap_app, Hurls1, Hurls.
      * apply Forall_app. split.
        -- eapply Forall_impl; [exact Hfs1|]. simpl.
           intros f (l & Hl & ->). exists 0, r, l.
           rewrite Hof, Nat.add_0_r. by split_and!.
        -- eapply Forall_impl; [exact Hfs|]. simpl.
           intros f (k & r' & l & Hk & Hl & ->).
           exists (S k), r', l. split_and!; try done.
           by rewrite Nat.add_succ_r.
    + unfold ret, mbind, remote_bind.
      destruct (IH (S n) st)
        as (later & st2 & tr & -> & Hcalls & Hget & Hurls & Hfs).
      eexists _, st2, tr. split_and!; try done.
      simpl. eapply Forall_impl; [exact Hfs|]. simpl.
      intros f (k & r' & l & Hk & Hl & ->).
      exists (S k), r', l. split_and!; try done.
      by rewrite Nat.add_succ_r.
Qed.

(** X6.  On rows of strings the label pass of one repository returns,
    after one lookup per part of each row's trimmed [Labels] field, in
    order, the empty parts included (the mapper drops them, this pass does
    not); nothing but lookups is requested.  Each finding is the
    information that a label of its row was not found in the repository
    and will be created, numbered from 2 along the rows. *)
Theorem validate_labels_lookups client rows repo st :
  Forall str_row rows →
  ∃ fs st' tr,
    GitHubValidator.validate_labels client rows repo st = (Ok fs, st')
    ∧ calls st' = calls st ++ tr
    ∧ Forall (λ c, is_get c = true) tr
    ∧ call_url <$> tr
      = GitHubClient.label_url client repo <$> concat (labels_of <$> rows)
    ∧ Forall (λ f, ∃ k r l,
                rows !! k = Some r ∧ l ∈ labels_of r
                ∧ f = GitHubValidator.label_not_found (2 + k) l repo) fs.
Proof. apply validate_labels_from_spec. Qed.

End Reconciliation.

Lemma map_row_total {O : SetOrder} (r : row) repo :
  str_row r → ∃ i, IssueMapper.map_row_to_issue r repo = Ok i.
Proof.
  intros Hr. unfold IssueMapper.map_row_to_issue.
  destruct (py_strip_get_or r "Title" Hr) as [t ->].
  destruct (py_strip_get_or r "Description" Hr) as [d ->].
  destruct (py_strip_get_or r "Assignee" Hr) as [a ->].
  destruct (py_strip_get_or r "Milestone" Hr) as [m ->].
  simpl. eauto.
Qed.

(** ** cli.py: the Enrich stage and the commands *)

Section Commands.
Context {World : Type} {T : Transport World} {O : SetOrder}.
Implicit Types (self : ImportPipeline.t) (st : remote World).

Lemma validate_label_repos_spec self rows repos st :
  Forall str_row rows →
  ∃ fs st' tr,
    validate_label_repos self rows repos st = (Ok fs, st')
    ∧ calls st' = calls st ++ tr
    ∧ Forall (λ c, is_get c = true) tr
    ∧ Forall (advisory rows) fs.
Proof.
  intros H. revert st. induction repos as [|repo rest IH]; intros st.
  - exists [], st, []. rewrite app_nil_r. by split_and!.
  - cbn [validate_label_repos]. unfold mbind at 1, remote_bind at 1.
    destruct (truthy repo).
    + destruct (validate_labels_from_spec (github_client self) 2 rows repo
                  st H)
        as (fs & st1 & tr1 & Hrun & Hcalls1 & Hget1 & _ & Hfs1).
      unfold GitHubValidator.validate_labels. rewrite Hrun.
      unfold mbind, remote_bind.
      destruct (IH st1) as (later & st2 & tr & -> & Hcalls & Hget & Hfs).
      eexists _, st2, (tr1 ++ tr). split_and!.
      * reflexivity.
      * by rewrite Hcalls, Hcalls1, (assoc_L (++)).
      * by apply Forall_app.
      * apply Forall_app. split; [|done].
        eapply Forall_impl; [exact Hfs1|]. simpl.
        intros f (k & r & l & Hk%lookup_lt_Some & _ & ->).
        split; [by right|]. simpl. lia.
    + unfold ret, mbind, remote_bind.
      destruct (IH st) as (later & st2 & tr & -> & Hcalls & Hget & Hfs).
      by eexists _, st2, tr.
Qed.

Lemma enrich_stage_gets self res st :
  Forall str_row (data res) →
  ∃ res' st' tr,
    enrich self res st = (Ok res', st')
    ∧ calls st' = calls st ++ tr
    ∧ Forall (λ c, is_get c = true) tr.
Proof.
  intros H. unfold enrich. destruct (valid res); cbn [negb].
  - destruct (validate_assignees_from_spec (github_client self) 2
                (data res) st H)
      as (fs & st1 & tr1 & Hfs & Hcalls1 & Hget1 & _).
    unfold mbind at 1, remote_bind at 1, GitHubValidator.validate_assignees.
    rewrite Hfs.
    destruct (validate_label_repos_spec self (data res)
                [primary (repository_rules self);
                 secondary (repository_rules self)] st1 H)
      as (ls & st2 & tr2 & Hls & Hcalls2 & Hget2 & _).
    unfold mbind, remote_bind. rewrite Hls.
    eexists _, st2, (tr1 ++ tr2). split_and!; [done| |by apply Forall_app].
    by rewrite Hcalls2, Hcalls1, (assoc_L (++)).
  - exists res, st, []. rewrite app_nil_r. by split_and!.
Qed.

(** X7.  On rows of strings the Enrich stage returns the result it was
    given with warnings added at the end and nothing else changed: its
    validity, errors, rows and row count are those of the input.  Each
    added warning has the severity [warn] or [info] and a row number along
    the batch; the stage requests nothing but lookups, and on an invalid
    result it adds nothing and requests nothing. *)
Theorem enrich_stage_reads_only self res st :
  Forall str_row (data res) →
  ∃ res' st' ws tr,
    enrich self res st = (Ok res', st')
    ∧ valid res' = valid res ∧ errors res' = errors res
    ∧ data res' = data res ∧ rows_count res' = rows_count res
    ∧ warnings res' = warnings res ++ ws
    ∧ Forall (advisory (data res)) ws
    ∧ calls st' = calls st ++ tr
    ∧ Forall (λ c, is_get c = true) tr
    ∧ (valid res = false → ws = [] ∧ st' = st).
Proof.
  intros H. unfold enrich. destruct (valid res) eqn:Hv; cbn [negb].
  - destruct (validate_assignees_from_spec (github_client self) 2
                (data res) st H)
      as (fs & st1 & tr1 & Hfs & Hcalls1 & Hget1 & _ & Hshape).
    unfold mbind at 1, remote_bind at 1, GitHubValidator.validate_assignees.
    rewrite Hfs.
    destruct (validate_label_repos_spec self (data res)
                [primary (repository_rules self);
                 secondary (repository_rules self)] st1 H)
      as (ls & st2 & tr2 & Hls & Hcalls2 & Hget2 & Hadv).
    unfold mbind, remote_bind. rewrite Hls.
    eexists _, st2, (fs ++ ls), (tr1 ++ tr2). split_and!; try done.
    + apply Forall_app. split; [|done].
      eapply Forall_impl; [exact Hshape|]. simpl.
      intros f (k & r & a & Hk%lookup_lt_Some & _ & ->).
      split; [by left|]. simpl. lia.
    + by rewrite Hcalls2, Hcalls1, (assoc_L (++)).
    + by apply Forall_app.
  - exists res, st, [], []. rewrite !app_nil_r. by split_and!.
Qed.

(** X8.  The [import] command on rows of strings: when the Validate stage
    is invalid the remote service is left as it was and nothing is
    requested; when the caller declines at the prompt, or the answer
    cannot be read, only lookups have been requested, so that nothing was
    created. *)
Theorem import_command_requests self src confirm response st :
  Forall str_row (batch_of src) →
  ((∀ res, validate src = Ok res → valid res = false) →
   (main_import self src confirm response st).2 = st)
  ∧ (confirm = false →
     (∀ answer, response = Ok answer → lower answer ≠ "yes") →
     ∃ tr, calls (main_import self src confirm response st).2
           = calls st ++ tr
           ∧ Forall (λ c, is_get c = true) tr).
Proof.
  intros H. unfold main_import. rewrite validate_returns by done.
  set (res := StageResult _ _ _ _ _).
  split.
  - intros Hinv. specialize (Hinv res eq_refl). by rewrite Hinv.
  - intros -> Hno.
    destruct (valid res) eqn:Hv; simpl.
    + destruct (enrich_stage_gets self res st H)
        as (res2 & st2 & tr & Henrich2 & Hcalls & Hget).
      rewrite Henrich2. destruct response as [answer|e]; [|by exists tr].
      assert (String.eqb (lower answer) "yes" = false) as ->
        by by apply String.eqb_neq, Hno.
      simpl. by exists tr.
    + exists []. by rewrite app_nil_r.
Qed.

(** X9.  The [validate] and [preview] commands end with status 0 on rows
    of strings whether the file is valid or not, and never touch the
    remote service; without a command the status is 1. *)
Theorem validate_command_exit self src dry_run response st :
  Forall str_row (batch_of src) →
  main self (Some (CmdValidate src dry_run)) response st = (0, st)
  ∧ main self (Some (CmdPreview src)) response st = (0, st)
  ∧ main self None response st = (1, st).
Proof.
  intros H. unfold main. by rewrite validate_returns.
Qed.

Lemma preview_rows_lookup self rows k (r : row) j :
  rows !! k = Some r → (j < 5)%nat →
  concat (preview_row self <$> rows) !! (5 * k + j)
  = preview_row self r !! j.
Proof.
  revert k. induction rows as [|r' rows IH]; intros k Hk Hj; [done|].
  rewrite fmap_cons, concat_cons. destruct k as [|k]; simpl in Hk.
  - injection Hk as ->. rewrite Nat.mul_0_r, Nat.add_0_l.
    by rewrite lookup_app_l by (simpl; lia).
  - rewrite lookup_app_r by (simpl; lia).
    replace (5 * S k + j - length (preview_row self r'))
      with (5 * k + j) by (simpl; lia).
    by apply IH.
Qed.

Lemma preview_rows_length self rows :
  length (concat (preview_row self <$> rows)) = 5 * length rows.
Proof.
  induction rows as [|r rows IH]; [done|].
  rewrite fmap_cons, concat_cons, length_app, IH. simpl. lia.
Qed.

Lemma row_outcome_posts self (r : row) i st :
  IssueMapper.map_row_to_issue r (resolve_repository self r) = Ok i →
  ∃ request answer,
    last (calls (row_outcome self r st).2)
    = Some (Post (GitHubClient.issues_url (github_client self)
                    (resolve_repository self r)) request answer).
Proof.
  intros Hmap.
  destruct (enrich_run (github_client self) i st) as (st1 & tr & Hrun & _).
  destruct (create_issue_run (github_client self) (resolve_repository self r)
              (IssueMapper.title i) (IssueMapper.body i)
              (IssueMapper.labels i) (IssueMapper.assignee i)
              (IssueMapper.milestone i) st1) as (answer & w & _ & Hcreate).
  unfold row_outcome, catch, create_row, mbind, remote_bind, lift.
  rewrite Hmap, Hrun, Hcreate. eexists _, answer.
  destruct answer as [e|c]; cbn [GitHubClient.json_or_none];
    [|destruct (dict_truthy (Some c))]; simpl; by rewrite last_snoc.
Qed.

(** X10.  On a valid result [preview] prints two heading strings and then
    five strings per row, in the order of the batch; the repository it
    shows for a row of strings is the one to whose issues the commit
    stage posts that row: the row's own [Repository] when it has one, the
    configured default otherwise. *)
Theorem preview_agrees_with_commit self res k (r : row) st :
  valid res = true → data res !! k = Some r → str_row r →
  length (preview self res) = 2 + 5 * length (data res)
  ∧ preview self res !! (2 + (5 * k + 1))
    = Some ("  Repository: " +:+ py_str (resolve_repository self r))
  ∧ (∃ request answer,
       last (calls (row_outcome self r st).2)
       = Some (Post (GitHubClient.issues_url (github_client self)
                       (resolve_repository self r)) request answer))
  ∧ resolve_repository self r
    = (if truthy (get r "Repository") then get r "Repository"
       else default (repository_rules self)).
Proof.
  intros Hv Hk Hr. unfold preview. rewrite Hv. cbn [negb]. split_and!.
  - rewrite length_app, preview_rows_length. reflexivity.
  - rewrite lookup_app_r by (simpl; lia).
    replace (2 + (5 * k + 1) - length _) with (5 * k + 1) by (simpl; lia).
    by rewrite (preview_rows_lookup self (data res) k r 1) by (done || lia).
  - destruct (map_row_total r (resolve_repository self r) Hr) as [i Hi].
    by eapply row_outcome_posts.
  - reflexivity.
Qed.

End Commands.

(** ** issue_mapper.py *)

Lemma lstrip_head s :
  match lstrip s with
  | EmptyString => True
  | String c _ => isspace c = false
  end.
Proof.
  induction s as [|c s IH]; simpl; [done|].
  destruct (isspace c) eqn:E; [done|]. simpl. done.
Qed.

Lemma lstrip_fixed c s : isspace c = false → lstrip (String c s) = String c s.
Proof. intros H. simpl. by rewrite H. Qed.

Lemma rstrip_head c s :
  isspace c = false → ∃ t, rstrip (String c s) = String c t.
Proof.
  intros H. simpl. destruct (rstrip s); rewrite ?H; eauto.
Qed.

Lemma rstrip_cons c s c' r :
  rstrip s = String c' r → rstrip (String c s) = String c (String c' r).
Proof. intros H. simpl. by rewrite H. Qed.

Lemma rstrip_idemp s : rstrip (rstrip s) = rstrip s.
Proof.
  induction s as [|c s IH]; [done|].
  destruct (rstrip s) as [|c' r] eqn:E.
  - simpl. rewrite E. destruct (isspace c) eqn:Hc; simpl; [done|].
    by rewrite Hc.
  - rewrite (rstrip_cons c s c' r E). by apply rstrip_cons.
Qed.

Lemma strip_idemp s : strip (strip s) = strip s.
Proof.
  unfold strip. pose proof (lstrip_head s) as H.
  destruct (lstrip s) as [|c t]; [done|].
  destruct (rstrip_head c t H) as [t' Ht']. rewrite Ht'.
  rewrite lstrip_fixed by done. rewrite <- Ht'. apply rstrip_idemp.
Qed.

Lemma lstrip_chars s c : c ∈ chars (lstrip s) → c ∈ chars s.
Proof.
  induction s as [|c' s IH]; simpl; [done|].
  destruct (isspace c'); [|done]. intros H. right. by apply IH.
Qed.

Lemma rstrip_chars s c : c ∈ chars (rstrip s) → c ∈ chars s.
Proof.
  induction s as [|c' s IH]; simpl; [done|].
  destruct (rstrip s) as [|c'' r] eqn:E.
  - destruct (isspace c'); simpl; [by intros ?%elem_of_nil|].
    intros [->|?%elem_of_nil]%elem_of_cons; [by left|done].
  - simpl. intros [->|H]%elem_of_cons; [by left|]. right. by apply IH.
Qed.

Lemma strip_chars s c : c ∈ chars (strip s) → c ∈ chars s.
Proof. unfold strip. by intros ?%rstrip_chars%lstrip_chars. Qed.

Lemma split_chars sep s x : x ∈ split sep s → sep ∉ chars x.
Proof.
  revert x. induction s as [|c s IH]; intros x; simpl.
  - intros ->%list_elem_of_singleton. apply not_elem_of_nil.
  - destruct (Ascii.eqb_spec c sep) as [->|Hc].
    + intros [->|H]%elem_of_cons; [apply not_elem_of_nil|by apply IH].
    + destruct (split sep s) as [|h t] eqn:E.
      * intros ->%list_elem_of_singleton. simpl.
        intros [->|?%elem_of_nil]%elem_of_cons; done.
      * intros [->|H]%elem_of_cons.
        -- simpl. intros [->|H]%elem_of_cons; [done|].
           by apply (IH h); [left|].
        -- apply IH. by right.
Qed.

Lemma parse_labels_clean v l :
  l ∈ IssueMapper._parse_labels v →
  l ≠ "" ∧ strip l = l ∧ ";"%char ∉ chars l.
Proof.
  destruct v as [|s]; simpl; [by intros ?%elem_of_nil|].
  destruct (nonempty s); [|by intros ?%elem_of_nil].
  intros [Hl Hx]%list_elem_of_filter.
  apply list_elem_of_fmap in Hx as (x & Hlx & Hx). subst l.
  split_and!.
  - by apply nonempty_true.
  - apply strip_idemp.
  - intros H%strip_chars. by apply (split_chars ";" s x).
Qed.

(** X11.  Every label of the item mapped from a record of strings is
    non-empty, has no white space at either end and contains no
    semicolon. *)
Theorem mapped_labels_clean {O : SetOrder} (r : row) repo :
  str_row r →
  ∃ i,
    IssueMapper.map_row_to_issue r repo = Ok i
    ∧ Forall (λ l, l ≠ "" ∧ strip l = l ∧ ";"%char ∉ chars l)
        (IssueMapper.labels i).
Proof.
  intros Hr. unfold IssueMapper.map_row_to_issue.
  destruct (py_strip_get_or r "Title" Hr) as [t ->].
  destruct (py_strip_get_or r "Description" Hr) as [d ->].
  destruct (py_strip_get_or r "Assignee" Hr) as [a ->].
  destruct (py_strip_get_or r "Milestone" Hr) as [m ->].
  simpl. eexists. split; [reflexivity|]. simpl.
  apply Forall_forall. intros l.
  rewrite list_of_set_elem_of, elem_of_app.
  intros [H|H%list_elem_of_singleton].
  - by eapply parse_labels_clean.
  - subst l. split_and!; [done|by vm_compute|].
    apply (bool_decide_unpack _). vm_compute. exact I.
Qed.

Lemma or_none_spec s :
  IssueMapper.or_none (strip s) ≠ Some ""
  ∧ (∀ a, IssueMapper.or_none (strip s) = Some a → strip a = a ∧ a ≠ "").
Proof.
  unfold IssueMapper.or_none. destruct (nonempty (strip s)) eqn:E.
  - apply nonempty_true in E. split; [congruence|].
    intros a [= <-]. split; [apply strip_idemp|done].
  - split; [done|]. by intros a.
Qed.

(** X12.  The other fields of the item mapped from a record of strings:
    the title and the body are the trimmed [Title] and [Description]; the
    assignee is the one the reconciliation looked up, absent when the
    field is blank and never an empty string; the milestone is the trimmed
    [Milestone], absent when that is empty; the
    type is the row's [Type], [Task] when the row has none; the repository
    is the one given. *)
Theorem mapped_fields {O : SetOrder} (r : row) repo :
  str_row r →
  ∃ i,
    IssueMapper.map_row_to_issue r repo = Ok i
    ∧ PStr (IssueMapper.title i)
      = PStr (strip (py_str (get_or r "Title" (PStr ""))))
    ∧ strip (IssueMapper.title i) = IssueMapper.title i
    ∧ strip (IssueMapper.body i) = IssueMapper.body i
    ∧ IssueMapper.assignee i = assignee_of r
    ∧ IssueMapper.assignee i ≠ Some ""
    ∧ IssueMapper.milestone i ≠ Some ""
    ∧ (∀ m, IssueMapper.milestone i = Some m → strip m = m)
    ∧ IssueMapper.type i = get_or r "Type" (PStr "Task")
    ∧ (r !! "Type" = None → IssueMapper.type i = PStr "Task")
    ∧ IssueMapper.repository i = repo
    ∧ IssueMapper.body i = strip (py_str (get_or r "Description" (PStr "")))
    ∧ IssueMapper.milestone i
      = (let m := strip (py_str (get_or r "Milestone" (PStr ""))) in
         if nonempty m then Some m else None).
Proof.
  intros Hr. unfold IssueMapper.map_row_to_issue.
  destruct (py_strip_get_or r "Title" Hr) as [t Ht]. rewrite Ht.
  destruct (py_strip_get_or r "Description" Hr) as [d Hd]. rewrite Hd.
  destruct (assignee_of_str r Hr) as (a & Ha & Hof). rewrite Ha, Hof.
  destruct (py_strip_get_or r "Milestone" Hr) as [m Hm]. rewrite Hm.
  simpl. eexists. split; [reflexivity|]. simpl.
  split_and!; try done.
  - apply strip_idemp.
  - apply strip_idemp.
  - apply or_none_spec.
  - apply or_none_spec.
  - intros m'. apply or_none_spec.
  - intros Hty. unfold get_or. by rewrite Hty.
Qed.

Lemma py_strip_get_or_cases (r : row) k :
  (r !! k ≠ Some PNone ∧ ∃ s, py_strip (get_or r k (PStr "")) = Ok s)
  ∨ (r !! k = Some PNone
     ∧ py_strip (get_or r k (PStr "")) = Raise attribute_error).
Proof.
  unfold get_or. destruct (r !! k) as [[|s]|]; simpl; eauto.
Qed.

(** X13.  The mapper returns an item exactly when none of [Title],
    [Description], [Assignee] and [Milestone] is [None], and raises the
    attribute error of [None.strip()] exactly when one of them is; a
    [None] under [Labels] or [Type] does not make it raise. *)
Theorem map_row_raises_iff {O : SetOrder} (r : row) repo :
  ((∃ i, IssueMapper.map_row_to_issue r repo = Ok i)
   ↔ Forall (λ k, r !! k ≠ Some PNone) trimmed_fields)
  ∧ (IssueMapper.map_row_to_issue r repo = Raise attribute_error
     ↔ Exists (λ k, r !! k = Some PNone) trimmed_fields).
Proof.
  unfold IssueMapper.map_row_to_issue, trimmed_fields.
  rewrite !Forall_cons, !Exists_cons, Forall_nil, Exists_nil.
  destruct (py_strip_get_or_cases r "Title") as [[Ht [t ->]]|[Ht ->]];
    [|split; split; first [by intros [? ?]|tauto]].
  destruct (py_strip_get_or_cases r "Description") as [[Hd [d ->]]|[Hd ->]];
    [|split; split; first [by intros [? ?]|tauto]].
  destruct (py_strip_get_or_cases r "Assignee") as [[Ha [a ->]]|[Ha ->]];
    [|split; split; first [by intros [? ?]|tauto]].
  destruct (py_strip_get_or_cases r "Milestone") as [[Hm [m ->]]|[Hm ->]];
    [|split; split; first [by intros [? ?]|tauto]].
  simpl. split; split; first [done|tauto|eauto].
Qed.

(** ** cli.py: the commit stage *)

Section CommitFacts.
Context {World : Type} {T : Transport World} {O : SetOrder}.
Implicit Types (self : ImportPipeline.t) (st : remote World).

Lemma map_row_raises (r : row) repo :
  Exists (λ k, r !! k = Some PNone) trimmed_fields →
  IssueMapper.map_row_to_issue r repo = Raise attribute_error.
Proof.
  unfold IssueMapper.map_row_to_issue, trimmed_fields.
  rewrite !Exists_cons, Exists_nil.
  destruct (py_strip_get_or_cases r "Title") as [[Ht [t ->]]|[Ht ->]];
    [|done].
  destruct (py_strip_get_or_cases r "Description") as [[Hd [d ->]]|[Hd ->]];
    [|done].
  destruct (py_strip_get_or_cases r "Assignee") as [[Ha [a ->]]|[Ha ->]];
    [|done].
  destruct (py_strip_get_or_cases r "Milestone") as [[Hm [m ->]]|[Hm ->]];
    [|done].
  intros [?|[?|[?|[?|[]]]]]; done.
Qed.

(** X14.  A row one of whose trimmed fields is [None] fails at commit
    before anything is requested: its outcome is [Failed] with the row's
    title and the text of the attribute error, and the remote service and
    the call log are as they were. *)
Theorem mapper_failure_requests_nothing self (r : row) st :
  Exists (λ k, r !! k = Some PNone) trimmed_fields →
  row_outcome self r st
  = (Ok (Failed (ImportError (get r "Title") attribute_error)), st).
Proof.
  intros H. unfold row_outcome, catch, create_row, mbind, remote_bind, lift.
  by rewrite (map_row_raises r (resolve_repository self r) H).
Qed.

(** X15.  On a valid enrichment result, the result of stage 3 is valid
    exactly when it lists no failure, which is exactly when as many issues
    were created as the batch has rows. *)
Theorem import_valid_iff_all_created self er st :
  valid er = true →
  ∃ res st',
    import_to_github self er st = (Ok (inr res), st')
    ∧ (import_valid res = true ↔ import_errors res = [])
    ∧ (import_valid res = true
       ↔ total_created res = length (data er)).
Proof.
  intros Hvalid. unfold import_to_github. rewrite Hvalid. simpl.
  destruct (import_rows_outcomes self (data er) [] [] st)
    as (outs & st' & _ & Hrows & Hall).
  unfold mbind, remote_bind. rewrite Hrows. simpl.
  eexists _, st'. split; [reflexivity|]. simpl.
  apply Forall2_length in Hall.
  pose proof (outcomes_split outs) as Hsplit.
  rewrite bool_decide_eq_true. split.
  - split; [apply nil_length_inv|by intros ->].
  - split; intros H; lia.
Qed.

Lemma label_trace_shape client repo labels tr :
  label_trace client repo labels tr →
  call_url <$> filter (λ c, is_get c = true) tr
  = GitHubClient.label_url client repo <$> labels
  ∧ (length (filter (λ c, is_get c = false) tr) ≤ length labels)%nat
  ∧ Forall (λ c, is_get c = false →
                 ∃ l answer,
                   l ∈ labels
                   ∧ c = Post (GitHubClient.labels_url client repo)
                           (LabelPayload l "cccccc" "") answer) tr.
Proof.
  induction 1 as [|label rest body tr Hbody Htr (IH1 & IH2 & IH3)
                  |label rest found answer tr Hfound Htr (IH1 & IH2 & IH3)].
  - by split_and!.
  - rewrite filter_cons_True, filter_cons_False by done.
    rewrite !fmap_cons, IH1. split_and!; [done|simpl; lia|].
    constructor; [done|].
    eapply Forall_impl; [exact IH3|]. simpl.
    intros c Hc Hpost. destruct (Hc Hpost) as (l & a & Hl & ->).
    exists l, a. split; [by right|done].
  - rewrite filter_cons_True, filter_cons_False by done.
    rewrite filter_cons_False, (filter_cons_True _ (Post _ _ _)) by done.
    rewrite !fmap_cons, IH1. split_and!; [done|simpl; lia|].
    constructor; [done|]. constructor.
    + intros _. exists label, answer. split; [by left|done].
    + eapply Forall_impl; [exact IH3|]. simpl.
      intros c Hc Hpost. destruct (Hc Hpost) as (l & a & Hl & ->).
      exists l, a. split; [by right|done].
Qed.

Lemma label_trace_created client repo labels tr :
  label_trace client repo labels tr →
  omap created_label tr `sublist_of` labels
  ∧ length (omap created_label tr)
    = length (filter (λ c, is_get c = false) tr).
Proof.
  induction 1 as [|label rest body tr Hbody Htr [IH1 IH2]
                  |label rest found answer tr Hfound Htr [IH1 IH2]].
  - split; [constructor|done].
  - cbn [omap list_omap created_label].
    rewrite filter_cons_False by done. split; [by constructor|done].
  - cbn [omap list_omap created_label].
    rewrite filter_cons_False, filter_cons_True by done.
    split; [by constructor|]. simpl. by rewrite IH2.
Qed.

(** X16.  The enrichment of an item looks up each of its labels once, in
    their order, and requests besides at most one creation per label, each
    of a label of the item with the colour [cccccc] and an empty
    description: the labels created are, in order, some of the labels of
    the item, each at most as often as the item has it, hence at most once
    when the item has no label twice.  It never requests anything else, an
    issue least of all. *)
Theorem enrichment_requests client (i : IssueMapper.issue) st :
  ∃ st' tr,
    IssueMapper.enrich_with_github_metadata client i st = (Ok i, st')
    ∧ calls st' = calls st ++ tr
    ∧ call_url <$> filter (λ c, is_get c = true) tr
      = GitHubClient.label_url client (IssueMapper.repository i)
        <$> IssueMapper.labels i
    ∧ (length (filter (λ c, is_get c = false) tr)
       ≤ length (IssueMapper.labels i))%nat
    ∧ Forall (λ c, is_get c = false →
                   ∃ l answer,
                     l ∈ IssueMapper.labels i
                     ∧ c = Post (GitHubClient.labels_url client
                                   (IssueMapper.repository i))
                             (LabelPayload l "cccccc" "") answer) tr
    ∧ omap created_label tr `sublist_of` IssueMapper.labels i
    ∧ length (omap created_label tr)
      = length (filter (λ c, is_get c = false) tr)
    ∧ (NoDup (IssueMapper.labels i) → NoDup (omap created_label tr)).
Proof.
  destruct (enrich_run client i st) as (st' & tr & Hrun & Hcalls & Htr).
  destruct (label_trace_shape _ _ _ _ Htr) as (H1 & H2 & H3).
  destruct (label_trace_created _ _ _ _ Htr) as (H4 & H5).
  exists st', tr. split_and!; try done.
  intros Hnodup. by eapply sublist_NoDup.
Qed.

End CommitFacts.

(** ** The further properties on concrete inputs *)

(** X5 on two rows, the second of which has a blank assignee. *)
Lemma validate_assignees_lookups_witness :
  let rows :=
    [Demo.record "Fix login" "Task" "" " bob "; Demo.record "Roadmap" "Epic" "" "  "] in
  ∃ fs st' tr,
    GitHubValidator.validate_assignees (T := Demo.service) Demo.client rows
      Demo.start = (Ok fs, st')
    ∧ calls st' = calls Demo.start ++ tr
    ∧ Forall (λ c, is_get c = true) tr
    ∧ call_url <$> tr
      = GitHubClient.user_url Demo.client <$> omap assignee_of rows
    ∧ Forall (λ f, ∃ k r a,
                rows !! k = Some r ∧ assignee_of r = Some a
                ∧ f = GitHubValidator.user_not_found (2 + k) a) fs.
Proof.
  apply (validate_assignees_lookups (T := Demo.service)).
  apply (bool_decide_unpack _). vm_compute. exact I.
Defined.

(** X6 on a row whose labels have an empty part. *)
Lemma validate_labels_lookups_witness :
  let rows := [Demo.record "Fix login" "Task" "bug;; ui" ""] in
  ∃ fs st' tr,
    GitHubValidator.validate_labels (T := Demo.service) Demo.client rows
      (PStr "support") Demo.start = (Ok fs, st')
    ∧ calls st' = calls Demo.start ++ tr
    ∧ Forall (λ c, is_get c = true) tr
    ∧ call_url <$> tr
      = GitHubClient.label_url Demo.client (PStr "support")
        <$> concat (labels_of <$> rows)
    ∧ Forall (λ f, ∃ k r l,
                rows !! k = Some r ∧ l ∈ labels_of r
                ∧ f = GitHubValidator.label_not_found (2 + k) l
                        (PStr "support")) fs.
Proof.
  apply (validate_labels_lookups (T := Demo.service)).
  apply (bool_decide_unpack _). vm_compute. exact I.
Defined.

(** The lookups of the witness of X6: the empty part is looked up too. *)
Example validate_labels_empty_part :
  labels_of (Demo.record "Fix login" "Task" "bug;; ui" "")
  = ["bug"; ""; "ui"]
  ∧ IssueMapper._parse_labels (PStr "bug;; ui") = ["bug"; "ui"].
Proof. split; vm_compute; reflexivity. Qed.

(** X7 on a valid result of one row. *)
Lemma enrich_stage_reads_only_witness :
  let res :=
    StageResult true 1 [] [] [Demo.record "Fix login" "Task" "bug" "bob"] in
  ∃ res' st' ws tr,
    enrich (T := Demo.service) Demo.pipeline res Demo.start = (Ok res', st')
    ∧ valid res' = valid res ∧ errors res' = errors res
    ∧ data res' = data res ∧ rows_count res' = rows_count res
    ∧ warnings res' = warnings res ++ ws
    ∧ Forall (advisory (data res)) ws
    ∧ calls st' = calls Demo.start ++ tr
    ∧ Forall (λ c, is_get c = true) tr
    ∧ (valid res = false → ws = [] ∧ st' = Demo.start).
Proof.
  apply (enrich_stage_reads_only (T := Demo.service)).
  apply (bool_decide_unpack _). vm_compute. exact I.
Defined.

(** X8 on a valid file and a caller who answers [no]. *)
Lemma import_command_requests_witness :
  let src :=
    Reader Demo.header [Demo.record "Fix login" "Task" "bug" "bob"] None in
  let run :=
    main_import (T := Demo.service) (O := Demo.order) Demo.pipeline src false
      (Ok "no") Demo.start in
  ((∀ res, validate src = Ok res → valid res = false) → run.2 = Demo.start)
  ∧ (false = false →
     (∀ answer, Ok "no" = Ok answer → lower answer ≠ "yes") →
     ∃ tr, calls run.2 = calls Demo.start ++ tr
           ∧ Forall (λ c, is_get c = true) tr).
Proof.
  apply (import_command_requests (T := Demo.service) (O := Demo.order)).
  apply (bool_decide_unpack _). vm_compute. exact I.
Defined.

(** X9 on an invalid file. *)
Lemma validate_command_exit_witness :
  let src :=
    Reader Demo.header [Demo.record "" "Bug" "" ""] None in
  main (T := Demo.service) (O := Demo.order) Demo.pipeline
    (Some (CmdValidate src true)) (Ok "") Demo.start = (0, Demo.start)
  ∧ main (T := Demo.service) (O := Demo.order) Demo.pipeline
      (Some (CmdPreview src)) (Ok "") Demo.start = (0, Demo.start)
  ∧ main (T := Demo.service) (O := Demo.order) Demo.pipeline None (Ok "")
      Demo.start = (1, Demo.start).
Proof.
  apply (validate_command_exit (T := Demo.service) (O := Demo.order)).
  apply (bool_decide_unpack _). vm_compute. exact I.
Defined.

(** X10 on the second row of a batch, which names its own repository. *)
Lemma preview_agrees_with_commit_witness :
  let r :=
    <["Repository" := PStr "portal"]> (Demo.record "Roadmap" "Epic" "" "") in
  let res :=
    StageResult true 2 [] [] [Demo.record "Fix login" "Task" "" ""; r] in
  length (preview Demo.pipeline res) = 2 + 5 * length (data res)
  ∧ preview Demo.pipeline res !! (2 + (5 * 1 + 1))
    = Some ("  Repository: " +:+ py_str (resolve_repository Demo.pipeline r))
  ∧ (∃ request answer,
       last (calls (row_outcome (T := Demo.service) (O := Demo.order)
                      Demo.pipeline r Demo.start).2)
       = Some (Post (GitHubClient.issues_url (github_client Demo.pipeline)
                       (resolve_repository Demo.pipeline r)) request answer))
  ∧ resolve_repository Demo.pipeline r
    = (if truthy (get r "Repository") then get r "Repository"
       else default (repository_rules Demo.pipeline)).
Proof.
  intros r res.
  apply (preview_agrees_with_commit (T := Demo.service) (O := Demo.order)
           Demo.pipeline res 1 r Demo.start).
  - reflexivity.
  - reflexivity.
  - apply (bool_decide_unpack _). vm_compute. exact I.
Defined.

(** What [preview] prints for the second row of that batch. *)
Example preview_second_row :
  preview_row Demo.pipeline
    (<["Repository" := PStr "portal"]> (Demo.record "Roadmap" "Epic" "" ""))
  = ["[Epic] Roadmap"; "  Repository: portal"; "  Assignee: Unassigned";
     "  Labels: None"; ""].
Proof. vm_compute. reflexivity. Qed.

(** X11 on a record with untidy labels. *)
Lemma mapped_labels_clean_witness :
  ∃ i,
    IssueMapper.map_row_to_issue (O := Demo.order)
      (Demo.record "Fix login" "Task" " bug ;; ui;" "") (PStr "support")
    = Ok i
    ∧ Forall (λ l, l ≠ "" ∧ strip l = l ∧ ";"%char ∉ chars l)
        (IssueMapper.labels i).
Proof.
  apply mapped_labels_clean.
  apply (bool_decide_unpack _). vm_compute. exact I.
Defined.

(** X12 on a record with a padded assignee and no [Type]. *)
Lemma mapped_fields_witness :
  let r :=
    delete "Type" (Demo.record "  Fix login " "Task" "" " bob ") in
  ∃ i,
    IssueMapper.map_row_to_issue (O := Demo.order) r (PStr "support") = Ok i
    ∧ PStr (IssueMapper.title i)
      = PStr (strip (py_str (get_or r "Title" (PStr ""))))
    ∧ strip (IssueMapper.title i) = IssueMapper.title i
    ∧ strip (IssueMapper.body i) = IssueMapper.body i
    ∧ IssueMapper.assignee i = assignee_of r
    ∧ IssueMapper.assignee i ≠ Some ""
    ∧ IssueMapper.milestone i ≠ Some ""
    ∧ (∀ m, IssueMapper.milestone i = Some m → strip m = m)
    ∧ IssueMapper.type i = get_or r "Type" (PStr "Task")
    ∧ (r !! "Type" = None → IssueMapper.type i = PStr "Task")
    ∧ IssueMapper.repository i = PStr "support"
    ∧ IssueMapper.body i = strip (py_str (get_or r "Description" (PStr "")))
    ∧ IssueMapper.milestone i
      = (let m := strip (py_str (get_or r "Milestone" (PStr ""))) in
         if nonempty m then Some m else None).
Proof.
  apply mapped_fields.
  apply (bool_decide_unpack _). vm_compute. exact I.
Defined.

(** X14 on the record of a line shorter than the header. *)
Lemma mapper_failure_requests_nothing_witness :
  row_outcome (T := Demo.service) (O := Demo.order) Demo.pipeline
    Demo.short_record Demo.start
  = (Ok (Failed (ImportError (get Demo.short_record "Title")
                   attribute_error)), Demo.start).
Proof.
  apply (mapper_failure_requests_nothing (T := Demo.service)
           (O := Demo.order)).
  apply (bool_decide_unpack _). vm_compute. exact I.
Defined.

(** X15 on a batch one row of which is rejected. *)
Lemma import_valid_iff_all_created_witness :
  let er :=
    StageResult true 2 [] []
      [Demo.record "Fix login" "Task" "" ""; Demo.record "boom" "Task" "" ""]
  in
  ∃ res st',
    import_to_github (T := Demo.service) (O := Demo.order) Demo.pipeline er
      Demo.start = (Ok (inr res), st')
    ∧ (import_valid res = true ↔ import_errors res = [])
    ∧ (import_valid res = true
       ↔ total_created res = length (data er)).
Proof.
  apply (import_valid_iff_all_created (T := Demo.service) (O := Demo.order)).
  reflexivity.
Defined.
